(** * Segmentation-aware parser evaluation (lstm_parser/evaluate.py)

    A shallow embedding of the evaluation engine of the joint
    word-segmentation and dependency parser, and the properties of it that
    the specification states.

    Conventions of the embedding.
    - A Python exception is a value: every function that can raise returns
      [result A], and the statements are sequenced with [let*].
    - Python ints that are lengths, character offsets, [enumerate] indices
      or counters are [nat]: the code builds them from [len], [range] and
      [+= 1] only.  [head_idx] is read from the input and is a [Z]; a list
      indexed by such an int follows Python's rule for negative indices.
    - [None] is [option]'s [None]; the dict [{'end': _, 'word_idx': _}] is
      the record [span_entry].
    - The rates are Python floats produced by [/] and [*].  They are
      modelled by exact rationals ([Q], compared with [==]); rounding is not
      modelled.  A division by zero raises, as in Python.

    The last part is about the caller, parse/train.py: [write_log] over a
    map from paths to file contents, and the epoch loop of [train] over
    what its collaborators return (the model, the batches, the predictions
    and the evaluation functions it imports), with the calls of
    [model.save_model] and [write_log] recorded in the state. *)

From Stdlib Require Import ZArith QArith String Lia Lqa.
From Stdlib Require Import Ascii Decimal DecimalString DecimalNat.
From stdpp Require Import base list strings gmap.

Local Open Scope nat_scope.

(** ** Exceptions and sequencing *)

Inductive exn : Set := ZeroDivisionError | IndexError | TypeError.

Inductive result (A : Type) : Type :=
| Ok (a : A)
| Raise (e : exn).
Arguments Ok {A} a.
Arguments Raise {A} e.

Definition bind {A B : Type} (m : result A) (k : A -> result B) : result B :=
  match m with
  | Ok a => k a
  | Raise e => Raise e
  end.

Notation "'let*' x ':=' m 'in' k" := (bind m (fun x => k))
  (at level 10, x pattern, m at level 100, k at level 200).

(** [for x in xs: body], threading the variables the body assigns. *)
Fixpoint for_each {A S : Type} (xs : list A) (body : A -> S -> result S) (s : S)
  : result S :=
  match xs with
  | [] => Ok s
  | x :: xs' => let* s' := body x s in for_each xs' body s'
  end.

Fixpoint enumerate_from {A : Type} (k : nat) (l : list A) : list (nat * A) :=
  match l with
  | [] => []
  | x :: l' => (k, x) :: enumerate_from (S k) l'
  end.

Definition enumerate {A : Type} (l : list A) : list (nat * A) :=
  enumerate_from 0 l.

(** [range(n)] *)
Definition range (n : nat) : list nat := seq 0 n.

(** ** Python lists *)

(** [l[i]] for an index that cannot be negative. *)
Definition getitem {A : Type} (l : list A) (i : nat) : result A :=
  match l !! i with
  | Some x => Ok x
  | None => Raise IndexError
  end.

(** [l[i]] for an arbitrary int: [-len(l) <= i < 0] counts from the end. *)
Definition getitem_int {A : Type} (l : list A) (i : Z) : result A :=
  let n := Z.of_nat (length l) in
  if (i <? 0)%Z then
    if (i + n <? 0)%Z then Raise IndexError else getitem l (Z.to_nat (i + n))
  else getitem l (Z.to_nat i).

(** [l[i] = x] for an index that cannot be negative. *)
Definition setitem {A : Type} (l : list A) (i : nat) (x : A) : result (list A) :=
  if decide (i < length l) then Ok (<[i := x]> l) else Raise IndexError.

(** ** Data *)

(** A token record; the predicted ones are dicts and the gold ones objects,
    with the same four fields. *)
Record word_info : Set := WordInfo {
  word : string;
  pos : string;
  head_idx : Z;
  dep_label : string
}.

(** [{'end': end_idx, 'word_idx': word_idx}] *)
Record span_entry : Set := SpanEntry {
  ent_end : option nat;
  ent_word_idx : option nat
}.

Definition empty_entry : span_entry := SpanEntry None None.

Record evaluation : Set := Evaluation {
  predicted_list_len : nat;
  gold_list_len : nat;
  correct_count : nat;
  precision : Q;
  recall : Q;
  f1_score : Q;
  pos_match : nat;
  pos_acc : Q;
  uas_match : nat;
  uas_score : Q;
  uas_precision : Q;
  uas_recall : Q;
  uas_f1_score : Q;
  las_match : nat;
  las_score : Q;
  las_precision : Q;
  las_recall : Q;
  las_f1_score : Q
}.

(** The epoch dict; its keys ['uas_f1_score'] and ['las_f1_score'] are
    [epoch_uas_f1_score] and [epoch_las_f1_score] here. *)
Record epoch_evaluation : Set := EpochEvaluation {
  word_precision : Q;
  word_recall : Q;
  word_f1_score : Q;
  pos_accuracy : Q;
  uas_accuracy : Q;
  las_accuracy : Q;
  epoch_uas_f1_score : Q;
  epoch_las_f1_score : Q;
  correct_words : nat;
  all_gold_words : nat;
  all_predicted_words : nat;
  correct_pos : nat;
  correct_uas : nat;
  correct_las : nat
}.

(** ** Arithmetic *)

Definition of_int (n : nat) : Q := inject_Z (Z.of_nat n).

(** [a / b] *)
Definition truediv (a b : Q) : result Q :=
  if Qeq_bool b 0 then Raise ZeroDivisionError else Ok (a / b)%Q.

(** [a > 0] *)
Definition Qpositive (a : Q) : bool :=
  match (0 ?= a)%Q with
  | Lt => true
  | _ => false
  end.

(** [sum(xs)] *)
Definition sum_Q (xs : list Q) : Q := fold_left Qplus xs 0%Q.
Definition sum_nat (xs : list nat) : nat := fold_left Nat.add xs 0.

(** ** The functions of evaluate.py *)

Definition get_f1_score (precision recall : Q) : result Q :=
  if Qpositive (precision + recall)
  then truediv (2 * (precision * recall)) (precision + recall)
  else Ok 0%Q.

(** [data_map[i]['end'] = v] and [data_map[i]['word_idx'] = v]: the entries
    are distinct dicts (the list is built by a comprehension), so the
    assignment changes one entry. *)
Definition set_end (data_map : list span_entry) (i v : nat)
  : result (list span_entry) :=
  let* e := getitem data_map i in
  Ok (<[i := SpanEntry (Some v) (ent_word_idx e)]> data_map).

Definition set_word_idx (data_map : list span_entry) (i v : nat)
  : result (list span_entry) :=
  let* e := getitem data_map i in
  Ok (<[i := SpanEntry (ent_end e) (Some v)]> data_map).

(** The body of the loop of [generate_start_end_map]; the loop variables
    are [data_map] and [last_idx]. *)
Definition index_body : nat * string -> list span_entry * nat ->
                        result (list span_entry * nat) :=
  fun '(word_idx, word) '(data_map, last_idx) =>
    let start_idx := last_idx in
    let end_idx := start_idx + String.length word in
    let* data_map := set_end data_map start_idx end_idx in
    let* data_map := set_word_idx data_map start_idx word_idx in
    let last_idx := end_idx in
    Ok (data_map, last_idx).

Definition generate_start_end_map (data_list : list string)
  : result (list span_entry) :=
  let n_len := sum_nat (map String.length data_list) in
  let data_map := replicate n_len empty_entry in
  let last_idx := 0 in
  let* (data_map, _) :=
    for_each (enumerate data_list) index_body (data_map, last_idx) in
  Ok data_map.

(** The body of the loop of [map_predicted_with_gold_words] over the
    character offsets; the loop variables are [two_set_map] and
    [correct_count]. *)
Definition align_body (predicted_index_map gold_index_map : list span_entry)
  : nat -> list (option nat) * nat -> result (list (option nat) * nat) :=
  fun start_idx '(two_set_map, correct_count) =>
    let* p_entry := getitem predicted_index_map start_idx in
    let end_idx := ent_end p_entry in
    let predicted_word_idx := ent_word_idx p_entry in
    match end_idx with
    | None => Ok (two_set_map, correct_count)
    | Some e =>
        let* g_entry := getitem gold_index_map start_idx in
        match ent_end g_entry with
        | Some e' =>
            if e' =? e then
              match predicted_word_idx, ent_word_idx g_entry with
              | Some predicted_word_idx, Some gold_word_idx =>
                  let* two_set_map :=
                    setitem two_set_map (predicted_word_idx + 1)
                            (Some (gold_word_idx + 1)) in
                  Ok (two_set_map, correct_count + 1)
              | _, _ => Raise TypeError
              end
            else Ok (two_set_map, correct_count)
        | None => Ok (two_set_map, correct_count)
        end
    end.

Definition map_predicted_with_gold_words (predicted_list gold_list : list word_info)
  : result (list (option nat) * nat) :=
  let* predicted_index_map := generate_start_end_map (map word predicted_list) in
  let* gold_index_map := generate_start_end_map (map word gold_list) in
  let correct_count := 0 in
  let two_set_map := replicate (length predicted_list + 1) None in
  let* two_set_map := setitem two_set_map 0 (Some 0) in
  for_each (range (length predicted_index_map))
    (align_body predicted_index_map gold_index_map) (two_set_map, correct_count).

(** The body of the loop of [get_pos_match]. *)
Definition pos_body (gold_list : list word_info) (predict_gold_map : list (option nat))
  : nat * word_info -> nat -> result nat :=
  fun '(word_idx, word_info) correct_count =>
    let* word_gold_index := getitem predict_gold_map (word_idx + 1) in
    match word_gold_index with
    | None => Ok correct_count
    | Some word_gold_index =>
        let predicted_pos := pos word_info in
        let* gold_word := getitem_int gold_list (Z.of_nat word_gold_index - 1) in
        let gold_pos := pos gold_word in
        if String.eqb predicted_pos gold_pos
        then Ok (correct_count + 1)
        else Ok correct_count
    end.

Definition get_pos_match (predicted_list gold_list : list word_info)
  (predict_gold_map : list (option nat)) : result nat :=
  let correct_count := 0 in
  for_each (enumerate predicted_list) (pos_body gold_list predict_gold_map)
    correct_count.

(** [predict_gold_map[h] == gold_head_node]: [None] equals no int. *)
Definition entry_eq_int (entry : option nat) (n : Z) : bool :=
  match entry with
  | Some v => (Z.of_nat v =? n)%Z
  | None => false
  end.

(** The body of the loop of [get_uas_las_match]; the loop variables are
    [uas_count] and [las_count]. *)
Definition uas_las_body (gold_list : list word_info)
  (predict_gold_map : list (option nat))
  : nat * word_info -> nat * nat -> result (nat * nat) :=
  fun '(word_idx, word_info) '(uas_count, las_count) =>
    let* word_gold_index := getitem predict_gold_map (word_idx + 1) in
    match word_gold_index with
    | None => Ok (uas_count, las_count)
    | Some word_gold_index =>
        let predicted_head_node := head_idx word_info in
        let predicted_dep_label := dep_label word_info in
        let* gold_word := getitem_int gold_list (Z.of_nat word_gold_index - 1) in
        let gold_head_node := head_idx gold_word in
        let gold_dep_label := dep_label gold_word in
        let* head_entry := getitem_int predict_gold_map predicted_head_node in
        if entry_eq_int head_entry gold_head_node then
          if String.eqb predicted_dep_label gold_dep_label
          then Ok (uas_count + 1, las_count + 1)
          else Ok (uas_count + 1, las_count)
        else Ok (uas_count, las_count)
    end.

Definition get_uas_las_match (predicted_list gold_list : list word_info)
  (predict_gold_map : list (option nat)) : result (nat * nat) :=
  let uas_count := 0 in
  let las_count := 0 in
  for_each (enumerate predicted_list) (uas_las_body gold_list predict_gold_map)
    (uas_count, las_count).

(** [(a / b) * 100] *)
Definition percent (a b : nat) : result Q :=
  let* q := truediv (of_int a) (of_int b) in
  Ok (q * 100)%Q.

(** [(a / b) * 100 if b > 0 else 0] *)
Definition percent_guarded (a b : nat) : result Q :=
  if 0 <? b then percent a b else Ok 0%Q.

Definition get_parser_evaluation (predicted_list gold_list : list word_info)
  : result evaluation :=
  let* (predict_gold_map, correct_count) :=
    map_predicted_with_gold_words predicted_list gold_list in
  let* pos_correct_count := get_pos_match predicted_list gold_list predict_gold_map in
  let* (uas_score, las_score) :=
    get_uas_las_match predicted_list gold_list predict_gold_map in
  let e_predicted_list_len := length predicted_list in
  let e_gold_list_len := length gold_list in
  let e_correct_count := correct_count in
  let* e_precision := percent correct_count (length predicted_list) in
  let* e_recall := percent correct_count (length gold_list) in
  let* e_f1_score := get_f1_score e_precision e_recall in
  let e_pos_match := pos_correct_count in
  let* e_pos_acc := percent_guarded pos_correct_count correct_count in
  let e_uas_match := uas_score in
  let* e_uas_score := percent_guarded uas_score correct_count in
  let* e_uas_precision := percent uas_score (length predicted_list) in
  let* e_uas_recall := percent uas_score (length gold_list) in
  let* e_uas_f1_score := get_f1_score e_uas_precision e_uas_recall in
  let e_las_match := las_score in
  let* e_las_score := percent_guarded las_score correct_count in
  let* e_las_precision := percent las_score (length predicted_list) in
  let* e_las_recall := percent las_score (length gold_list) in
  let* e_las_f1_score := get_f1_score e_las_precision e_las_recall in
  Ok (Evaluation e_predicted_list_len e_gold_list_len e_correct_count
        e_precision e_recall e_f1_score e_pos_match e_pos_acc
        e_uas_match e_uas_score e_uas_precision e_uas_recall e_uas_f1_score
        e_las_match e_las_score e_las_precision e_las_recall e_las_f1_score).

(** [sum(x[field] for x in evaluation_list) / n_eval] *)
Definition rate_mean (field : evaluation -> Q) (evaluation_list : list evaluation)
  (n_eval : nat) : result Q :=
  truediv (sum_Q (map field evaluation_list)) (of_int n_eval).

Definition get_epoch_evaluation (evaluation_list : list evaluation)
  : result epoch_evaluation :=
  let n_eval := length evaluation_list in
  let* e_word_precision := rate_mean precision evaluation_list n_eval in
  let* e_word_recall := rate_mean recall evaluation_list n_eval in
  let* e_word_f1_score := rate_mean f1_score evaluation_list n_eval in
  let* e_pos_accuracy := rate_mean pos_acc evaluation_list n_eval in
  let* e_uas_accuracy := rate_mean uas_score evaluation_list n_eval in
  let* e_las_accuracy := rate_mean las_score evaluation_list n_eval in
  let* e_uas_f1_score := rate_mean uas_f1_score evaluation_list n_eval in
  let* e_las_f1_score := rate_mean las_f1_score evaluation_list n_eval in
  let e_correct_words := sum_nat (map correct_count evaluation_list) in
  let e_all_gold_words := sum_nat (map gold_list_len evaluation_list) in
  let e_all_predicted_words := sum_nat (map predicted_list_len evaluation_list) in
  let e_correct_pos := sum_nat (map pos_match evaluation_list) in
  let e_correct_uas := sum_nat (map uas_match evaluation_list) in
  let e_correct_las := sum_nat (map las_match evaluation_list) in
  Ok (EpochEvaluation e_word_precision e_word_recall e_word_f1_score
        e_pos_accuracy e_uas_accuracy e_las_accuracy e_uas_f1_score e_las_f1_score
        e_correct_words e_all_gold_words e_all_predicted_words
        e_correct_pos e_correct_uas e_correct_las).

(** ** write_log (parse/train.py) *)

(** [str(n)] for an int that is not negative. *)
Definition str_int (n : nat) : string := NilEmpty.string_of_uint (Nat.to_uint n).

Fixpoint zeros (k : nat) : string :=
  match k with
  | 0 => ""
  | S k' => String "0"%char (zeros k')
  end.

(** ['{0:04}'.format(n)] for an int that is not negative: its decimal
    digits, filled with zeros on the left up to four characters. *)
Definition format_04 (n : nat) : string :=
  let digits := str_int n in
  (zeros (4 - String.length digits) ++ digits)%string.


Definition log_file_path (log_path : string) (epoch_count : nat) : string :=
  (log_path ++ "epoch-" ++ format_04 epoch_count)%string.


(** ** The epoch loop of train (parse/train.py) *)

(** What the collaborators of [train] hand to its loop in one run: the
    losses that [model.train] returns for the batches of each epoch, the
    tokens [predicted_parser.results[1:]] that [predict] gives for each
    evaluation sentence at each epoch, the [data_label] of each evaluation
    sentence, and the two functions that [train] imports from
    [parse.evaluate].  That module is not among the sources; the loop is
    modelled for any two functions that return the records of
    lstm_parser/evaluate.py or raise. *)
Record training_run : Type := TrainingRun {
  batch_losses : nat -> list Q;
  predicted_results : nat -> nat -> list word_info;
  eval_data_labels : list (list word_info);
  parse_get_parser_evaluation : list word_info -> list word_info -> result evaluation;
  parse_get_epoch_evaluation : list evaluation -> result epoch_evaluation
}.

(** The variables of the loop, with the calls of [model.save_model] (their
    epoch) and of [write_log] (epoch, batch loss, evaluation) made so far. *)
Record train_state : Type := TrainState {
  epoch_count : nat;
  last_f1 : list Q;
  last_uas : list Q;
  last_batch_loss : list Q;
  max_f1 : Q;
  max_uas : Q;
  saved_models : list nat;
  written_logs : list (nat * Q * epoch_evaluation)
}.

(** [a < b] *)
Definition Qlt_bool (a b : Q) : bool :=
  match (a ?= b)%Q with
  | Lt => true
  | _ => false
  end.

(** [max(a, b)]: the first argument unless the second is larger. *)
Definition py_max (a b : Q) : Q := if Qlt_bool a b then b else a.

Definition initial_state : train_state := TrainState 0 [] [] [] 0 0 [] [].

(** The evaluation pass: one record for each evaluation sentence. *)
Definition evaluate_epoch (run : training_run) (epoch_count : nat)
  : result (list evaluation) :=
  let evaluation_list := [] in
  for_each (enumerate (eval_data_labels run))
    (fun '(sentence, data_label) evaluation_list =>
       let* evaluation :=
         parse_get_parser_evaluation run
           (predicted_results run epoch_count sentence) data_label in
       Ok (evaluation_list ++ [evaluation]))
    evaluation_list.

(** [epoch_count += 1] *)
Definition next_epoch (st : train_state) : train_state :=
  TrainState (epoch_count st + 1) (last_f1 st) (last_uas st) (last_batch_loss st)
    (max_f1 st) (max_uas st) (saved_models st) (written_logs st).

(** One turn of [while True]; the boolean is [false] at [break]. *)
Definition train_epoch (run : training_run) (st : train_state)
  : result (train_state * bool) :=
  let '(TrainState epoch_count last_f1 last_uas last_batch_loss
          max_f1 max_uas saved_models written_logs) := st in
  let iteration_count := length (batch_losses run epoch_count) in
  let training_loss_sum := sum_Q (batch_losses run epoch_count) in
  let* training_batch_loss := truediv training_loss_sum (of_int iteration_count) in
  let last_batch_loss := last_batch_loss ++ [training_batch_loss] in
  let* st :=
    if epoch_count mod 5 =? 0 then
      let* evaluation_list := evaluate_epoch run epoch_count in
      let* epoch_eval := parse_get_epoch_evaluation run evaluation_list in
      let f1_score := word_f1_score epoch_eval in
      let uas_score := uas_accuracy epoch_eval in
      let last_f1 := last_f1 ++ [f1_score] in
      let last_uas := last_uas ++ [uas_score] in
      let saved_models :=
        if Qlt_bool max_uas uas_score
        then saved_models ++ [epoch_count]
        else saved_models in
      let max_f1 := py_max f1_score max_f1 in
      let max_uas := py_max uas_score max_uas in
      let written_logs :=
        written_logs ++ [(epoch_count, training_batch_loss, epoch_eval)] in
      Ok (TrainState epoch_count last_f1 last_uas last_batch_loss
            max_f1 max_uas saved_models written_logs)
    else
      Ok (TrainState epoch_count last_f1 last_uas last_batch_loss
            max_f1 max_uas saved_models written_logs) in
  let* average_batch_loss :=
    truediv (sum_Q last_batch_loss) (of_int (length last_batch_loss)) in
  if Qlt_bool training_batch_loss average_batch_loss || (epoch_count <? 20)
  then Ok (next_epoch st, true)
  else Ok (st, false).

(** [while True], for at most [fuel] turns: [Some] the state at [break], or
    [None] when the loop is still running. *)
Fixpoint train_loop (run : training_run) (fuel : nat) (st : train_state)
  : result (option train_state) :=
  match fuel with
  | 0 => Ok None
  | S fuel' =>
      let* (st', go_on) := train_epoch run st in
      if go_on then train_loop run fuel' st' else Ok (Some st')
  end.

(** The batch loss of an epoch and the average of the losses up to it. *)
Definition epoch_loss (run : training_run) (k : nat) : Q :=
  (sum_Q (batch_losses run k) / of_int (length (batch_losses run k)))%Q.

Definition losses_upto (run : training_run) (k : nat) : list Q :=
  map (epoch_loss run) (seq 0 (S k)).

Definition running_average (run : training_run) (k : nat) : Q :=
  (sum_Q (losses_upto run k) / of_int (length (losses_upto run k)))%Q.

(** The loop goes on after epoch [k]. *)
Definition keeps_going (run : training_run) (k : nat) : bool :=
  Qlt_bool (epoch_loss run k) (running_average run k) || (k <? 20).

(** Epoch [k] raises nothing: it has batches, and when it is an evaluated
    epoch every sentence is scored and the records are aggregated. *)
Definition epoch_runs (run : training_run) (k : nat) : Prop :=
  batch_losses run k <> [] /\
  (k mod 5 = 0 ->
   exists evaluation_list epoch_eval,
     evaluate_epoch run k = Ok evaluation_list /\
     parse_get_epoch_evaluation run evaluation_list = Ok epoch_eval).

(** The run scores with the functions of lstm_parser/evaluate.py. *)
Definition scores_with_evaluate (run : training_run) : Prop :=
  parse_get_parser_evaluation run = get_parser_evaluation /\
  parse_get_epoch_evaluation run = get_epoch_evaluation.

(** What one turn of the loop that raises nothing has done. *)
Definition epoch_effect (run : training_run) (st st1 : train_state) : Prop :=
  let k := epoch_count st in
  epoch_count st1 = k /\
  last_batch_loss st1 = last_batch_loss st ++ [epoch_loss run k] /\
  if k mod 5 =? 0 then
    exists evaluation_list epoch_eval,
      evaluate_epoch run k = Ok evaluation_list /\
      parse_get_epoch_evaluation run evaluation_list = Ok epoch_eval /\
      last_f1 st1 = last_f1 st ++ [word_f1_score epoch_eval] /\
      last_uas st1 = last_uas st ++ [uas_accuracy epoch_eval] /\
      saved_models st1
      = (if Qlt_bool (max_uas st) (uas_accuracy epoch_eval)
         then saved_models st ++ [k] else saved_models st) /\
      max_f1 st1 = py_max (word_f1_score epoch_eval) (max_f1 st) /\
      max_uas st1 = py_max (uas_accuracy epoch_eval) (max_uas st) /\
      written_logs st1 = written_logs st ++ [(k, epoch_loss run k, epoch_eval)]
  else
    last_f1 st1 = last_f1 st /\ last_uas st1 = last_uas st /\
    saved_models st1 = saved_models st /\ max_f1 st1 = max_f1 st /\
    max_uas st1 = max_uas st /\ written_logs st1 = written_logs st.

(** The epochs at which [train] evaluates. *)
Definition evaluated_epochs (n : nat) : list nat :=
  filter (fun k => k mod 5 = 0) (seq 0 n).

(** The checkpoint that [model.save_model] wrote last is that of a logged
    evaluation whose UAS is the best seen; before the first one the best
    UAS seen is 0. *)
Definition best_checkpoint (st : train_state) : Prop :=
  (0 <= max_uas st)%Q /\
  Forall (fun entry => (uas_accuracy (snd entry) <= max_uas st)%Q) (written_logs st) /\
  match last (saved_models st) with
  | Some k => exists loss epoch_eval,
                (k, loss, epoch_eval) ∈ written_logs st /\
                (uas_accuracy epoch_eval == max_uas st)%Q
  | None => (max_uas st == 0)%Q
  end.

(** Three runs that score with the functions of lstm_parser/evaluate.py.
    In the first every epoch has one batch of loss 1 and the model parses
    the one evaluation sentence as the gold analysis has it. *)
Definition constant_run : training_run :=
  TrainingRun (fun _ => [1%Q])
    (fun _ _ => [WordInfo "ab" "N" 0 "root"])
    [[WordInfo "ab" "N" 0 "root"]]
    get_parser_evaluation get_epoch_evaluation.


(** A run whose model outputs no token for the one evaluation sentence. *)
Definition silent_run : training_run :=
  TrainingRun (fun _ => [1%Q]) (fun _ _ => []) [[WordInfo "ab" "N" 0 "root"]]
    get_parser_evaluation get_epoch_evaluation.

(** ** Spans *)

(** The lengths of the tokens, and the length of the character stream. *)
Definition lens (l : list word_info) : list nat := map String.length (map word l).

Definition stream_len (l : list word_info) : nat := sum_nat (lens l).

(** The start offset of token [j]. *)
Definition start_of (lens : list nat) (j : nat) : nat := sum_nat (take j lens).

(** The Span Indexer's array as the specification describes it (§4.1): the
    entry at a token's start offset holds the token's end offset and index,
    the other entries are empty.  [word_idx] and [start] are the index and
    the start offset of the first token of [lens]. *)
Fixpoint layout (word_idx start : nat) (lens : list nat) : list span_entry :=
  match lens with
  | [] => []
  | n :: rest =>
      SpanEntry (Some (start + n)) (Some word_idx)
        :: replicate (n - 1) empty_entry ++ layout (S word_idx) (start + n) rest
  end.

(** The token that starts at offset [i], if one does. *)
Definition word_at (dm : list span_entry) (i : nat) : option nat :=
  match dm !! i with
  | Some ent => ent_word_idx ent
  | None => None
  end.

(** A token starts at offset [i]. *)
Definition is_start (dm : list span_entry) (i : nat) : bool :=
  match dm !! i with
  | Some (SpanEntry (Some _) _) => true
  | _ => false
  end.

(** A predicted and a gold token start at offset [i] and end at the same
    offset. *)
Definition matched (pm gm : list span_entry) (i : nat) : bool :=
  match pm !! i, gm !! i with
  | Some (SpanEntry (Some e) _), Some (SpanEntry (Some e') _) => e' =? e
  | _, _ => false
  end.

(** ** The alignment map *)

(** The state of the alignment loop after the offsets below [j]: the map has
    its ROOT entry, the count is the number of matched offsets, and a
    token's entry is defined when the token starts at a matched offset; it
    is then the index of the gold token that starts there. *)
Definition aligned_upto (pm gm : list span_entry) (n_pred j : nat)
  (m : list (option nat)) (c : nat) : Prop :=
  length m = n_pred + 1 /\
  m !! 0 = Some (Some 0) /\
  c = length (filter (fun i => matched pm gm i = true) (seq 0 j)) /\
  forall p v, m !! S p = Some (Some v) <->
    exists i g, i < j /\ matched pm gm i = true /\
                word_at pm i = Some p /\ word_at gm i = Some g /\ v = S g.

(** The state after every offset of the predicted stream. *)
Definition alignment_of (predicted_list gold_list : list word_info)
  (m : list (option nat)) (c : nat) : Prop :=
  aligned_upto (layout 0 0 (lens predicted_list)) (layout 0 0 (lens gold_list))
    (length predicted_list) (stream_len predicted_list) m c.

(** An alignment map fits its sequences: one entry for ROOT and one for each
    predicted token, and every defined entry of a token is the index of a
    gold token. *)
Definition map_fits (n_pred n_gold : nat) (m : list (option nat)) : Prop :=
  length m = n_pred + 1 /\
  forall p v, m !! S p = Some (Some v) -> exists g, v = S g /\ g < n_gold.

(** ** The Attribute Scorer of the specification *)

(** Specification §4.3, over the items [(word_idx, token)] of
    [enumerate(predicted_list)]; the token's index in the alignment map is
    [p = word_idx + 1], and [gold[g]] is [gold_list !! (g - 1)]. *)

(** The number of items of [l] that satisfy [P]. *)
Definition count {A : Type} (P : A -> bool) (l : list A) : nat :=
  length (filter (fun x => P x = true) l).

(** [map[p]] is defined. *)
Definition is_aligned (map : list (option nat)) (item : nat * word_info) : bool :=
  match map !! (fst item + 1) with
  | Some (Some _) => true
  | _ => false
  end.

(** [map[p] = g] is defined and [predicted[p].pos == gold[g].pos]. *)
Definition pos_correct (gold_list : list word_info) (map : list (option nat))
  (item : nat * word_info) : bool :=
  match map !! (fst item + 1) with
  | Some (Some g) =>
      match gold_list !! (g - 1) with
      | Some gold_token => String.eqb (pos (snd item)) (pos gold_token)
      | None => false
      end
  | _ => false
  end.

(** [map[p] = g] is defined, and for [h = predicted[p].head_index], [map[h]]
    is defined and equals [gold[g].head_index]. *)
Definition unlabeled_correct (gold_list : list word_info) (map : list (option nat))
  (item : nat * word_info) : bool :=
  match map !! (fst item + 1) with
  | Some (Some g) =>
      match gold_list !! (g - 1), map !! Z.to_nat (head_idx (snd item)) with
      | Some gold_token, Some (Some hg) => (Z.of_nat hg =? head_idx gold_token)%Z
      | _, _ => false
      end
  | _ => false
  end.

(** [map[p] = g] is defined and [predicted[p].dep_label == gold[g].dep_label]. *)
Definition label_correct (gold_list : list word_info) (map : list (option nat))
  (item : nat * word_info) : bool :=
  match map !! (fst item + 1) with
  | Some (Some g) =>
      match gold_list !! (g - 1) with
      | Some gold_token => String.eqb (dep_label (snd item)) (dep_label gold_token)
      | None => false
      end
  | _ => false
  end.

Definition labeled_correct (gold_list : list word_info) (map : list (option nat))
  (item : nat * word_info) : bool :=
  unlabeled_correct gold_list map item && label_correct gold_list map item.

(** Plain attachment accuracy: the predicted token has the head of the gold
    token at the same position, and for the labeled one the same label. *)
Definition same_head (gold_list : list word_info) (item : nat * word_info) : bool :=
  match gold_list !! fst item with
  | Some gold_token => (head_idx (snd item) =? head_idx gold_token)%Z
  | None => false
  end.

Definition same_head_and_label (gold_list : list word_info)
  (item : nat * word_info) : bool :=
  match gold_list !! fst item with
  | Some gold_token =>
      (head_idx (snd item) =? head_idx gold_token)%Z
      && String.eqb (dep_label (snd item)) (dep_label gold_token)
  | None => false
  end.

(** ** Well-formed input *)

(** Every token has at least one character. *)
Definition nonempty_words (l : list word_info) : bool :=
  forallb (fun t => 0 <? String.length (word t)) l.

(** Every predicted token starts before the end of the gold character
    stream; so it is when the predicted stream is not the longer one. *)
Definition starts_within (predicted_list gold_list : list word_info) : bool :=
  forallb (fun j => start_of (lens predicted_list) j <? stream_len gold_list)
          (range (length predicted_list)).

Definition spans_ok (predicted_list gold_list : list word_info) : bool :=
  nonempty_words predicted_list && nonempty_words gold_list
  && starts_within predicted_list gold_list.

(** Every predicted head is ROOT or a token of the predicted sequence. *)
Definition heads_ok (predicted_list : list word_info) : bool :=
  forallb (fun t => (0 <=? head_idx t)%Z
                    && (head_idx t <=? Z.of_nat (length predicted_list))%Z)
          predicted_list.

(** The input the engine is written for: tokens with at least one
    character, every predicted token inside the gold character stream, and
    predicted heads that are indices of the predicted sequence. *)
Definition well_formed (predicted_list gold_list : list word_info) : bool :=
  spans_ok predicted_list gold_list && heads_ok predicted_list.

(** The heads that the scorer looks up are in the map's range. *)
Definition aligned_heads_ok (predicted_list : list word_info)
  (m : list (option nat)) : Prop :=
  forall i t, predicted_list !! i = Some t -> is_aligned m (i, t) = true ->
              (0 <= head_idx t <= Z.of_nat (length predicted_list))%Z.

(** ** The aggregators of the specification *)

(** A rate is a percentage. *)
Definition is_percentage (q : Q) : Prop := (0 <= q <= 100)%Q.

(** The record that the Sentence Aggregator (§4.4) builds from the counts. *)
Definition evaluation_of (n_pred n_gold c pc u l : nat) (ev : evaluation) : Prop :=
  predicted_list_len ev = n_pred /\ gold_list_len ev = n_gold /\
  correct_count ev = c /\ pos_match ev = pc /\ uas_match ev = u /\ las_match ev = l /\
  precision ev = (of_int c / of_int n_pred * 100)%Q /\
  recall ev = (of_int c / of_int n_gold * 100)%Q /\
  get_f1_score (precision ev) (recall ev) = Ok (f1_score ev) /\
  pos_acc ev = (if 0 <? c then of_int pc / of_int c * 100 else 0)%Q /\
  uas_score ev = (if 0 <? c then of_int u / of_int c * 100 else 0)%Q /\
  uas_precision ev = (of_int u / of_int n_pred * 100)%Q /\
  uas_recall ev = (of_int u / of_int n_gold * 100)%Q /\
  get_f1_score (uas_precision ev) (uas_recall ev) = Ok (uas_f1_score ev) /\
  las_score ev = (if 0 <? c then of_int l / of_int c * 100 else 0)%Q /\
  las_precision ev = (of_int l / of_int n_pred * 100)%Q /\
  las_recall ev = (of_int l / of_int n_gold * 100)%Q /\
  get_f1_score (las_precision ev) (las_recall ev) = Ok (las_f1_score ev).

(** Specification §4.5: the unweighted arithmetic mean of the rates. *)
Definition mean (xs : list Q) : Q :=
  (fold_right Qplus 0 xs / of_int (length xs))%Q.

(** The rate and count keys of the epoch dict, each with the key of the
    sentence dict that [get_epoch_evaluation] reads for it. *)
Inductive rate_field : Set :=
| WordPrecision | WordRecall | WordF1Score | PosAccuracy
| UasAccuracy | LasAccuracy | UasF1Score | LasF1Score.

Inductive count_field : Set :=
| CorrectWords | AllGoldWords | AllPredictedWords
| CorrectPos | CorrectUas | CorrectLas.

Definition sentence_rate (f : rate_field) (ev : evaluation) : Q :=
  match f with
  | WordPrecision => precision ev
  | WordRecall => recall ev
  | WordF1Score => f1_score ev
  | PosAccuracy => pos_acc ev
  | UasAccuracy => uas_score ev
  | LasAccuracy => las_score ev
  | UasF1Score => uas_f1_score ev
  | LasF1Score => las_f1_score ev
  end.

Definition epoch_rate (f : rate_field) (ep : epoch_evaluation) : Q :=
  match f with
  | WordPrecision => word_precision ep
  | WordRecall => word_recall ep
  | WordF1Score => word_f1_score ep
  | PosAccuracy => pos_accuracy ep
  | UasAccuracy => uas_accuracy ep
  | LasAccuracy => las_accuracy ep
  | UasF1Score => epoch_uas_f1_score ep
  | LasF1Score => epoch_las_f1_score ep
  end.

Definition sentence_count (f : count_field) (ev : evaluation) : nat :=
  match f with
  | CorrectWords => correct_count ev
  | AllGoldWords => gold_list_len ev
  | AllPredictedWords => predicted_list_len ev
  | CorrectPos => pos_match ev
  | CorrectUas => uas_match ev
  | CorrectLas => las_match ev
  end.

Definition epoch_sum (f : count_field) (ep : epoch_evaluation) : nat :=
  match f with
  | CorrectWords => correct_words ep
  | AllGoldWords => all_gold_words ep
  | AllPredictedWords => all_predicted_words ep
  | CorrectPos => correct_pos ep
  | CorrectUas => correct_uas ep
  | CorrectLas => correct_las ep
  end.

(** The counts of a record are ordered as those of a scored sentence are. *)
Definition counts_ordered (count : count_field -> nat) : Prop :=
  count CorrectWords <= count AllPredictedWords /\
  count CorrectWords <= count AllGoldWords /\
  count CorrectPos <= count CorrectWords /\
  count CorrectUas <= count CorrectWords /\
  count CorrectLas <= count CorrectUas.

(** A record whose averaged rates are percentages and whose counts are
    ordered; the same for an epoch record, and for what [train] has logged
    and kept as its best scores. *)
Definition sound_sentence (ev : evaluation) : Prop :=
  (forall f, is_percentage (sentence_rate f ev)) /\
  counts_ordered (fun f => sentence_count f ev).

Definition sound_epoch (ep : epoch_evaluation) : Prop :=
  (forall f, is_percentage (epoch_rate f ep)) /\
  counts_ordered (fun f => epoch_sum f ep).

Definition sound_logs (st : train_state) : Prop :=
  Forall (fun entry => sound_epoch (snd entry)) (written_logs st) /\
  is_percentage (max_f1 st) /\ is_percentage (max_uas st).

(** ** Example sentences *)

Definition token (w p : string) (h : Z) (d : string) : word_info := WordInfo w p h d.

(** Two tokens, segmented as in the gold analysis; the second has a wrong
    tag and a wrong label. *)
Definition partial_predicted : list word_info :=
  [token "ab" "N" 0 "root"; token "cd" "V" 1 "obj"].

Definition partial_gold : list word_info :=
  [token "ab" "N" 0 "root"; token "cd" "N" 1 "subj"].

(** Three predicted tokens of which only the last has a gold span. *)
Definition split_predicted : list word_info :=
  [token "ab" "N" 3 "subj"; token "cd" "N" 3 "obj"; token "e" "V" 0 "root"].

Definition split_gold : list word_info :=
  [token "a" "N" 3 "subj"; token "bcd" "N" 3 "obj"; token "e" "V" 0 "root"].

(** The spans of the predicted tokens cross those of the gold tokens. *)
Definition crossing_predicted : list word_info :=
  [token "ab" "N" 2 "subj"; token "cd" "V" 0 "root"].

Definition crossing_gold : list word_info :=
  [token "a" "N" 2 "subj"; token "bcd" "V" 0 "root"].

(** Three tokens segmented, tagged and attached as in the gold analysis. *)
Definition exact_sentence : list word_info :=
  [token "a" "N" 2 "subj"; token "bc" "V" 0 "root"; token "d" "N" 2 "obj"].

(** The record of a sentence of three tokens, all of them right, and the
    record of a sentence of two tokens, none of them segmented right. *)
Definition exact_evaluation : evaluation :=
  Evaluation 3 3 3 100 100 100 3 100 3 100 100 100 100 3 100 100 100 100.

Definition crossing_evaluation : evaluation :=
  Evaluation 2 2 0 0 0 0 0 0 0 0 0 0 0 0 0 0 0 0.

(** The predicted stream is longer than the gold stream, and its last token
    starts where the gold stream ends. *)
Definition longer_predicted : list word_info :=
  [token "ab" "N" 0 "root"; token "c" "N" 1 "obj"].

Definition shorter_gold : list word_info := [token "ab" "N" 0 "root"].

(** The predicted stream is the shorter one. *)
Definition shorter_predicted : list word_info := [token "ab" "N" 0 "root"].

Definition longer_gold : list word_info :=
  [token "ab" "N" 0 "root"; token "c" "N" 1 "obj"].

(** * Properties *)

(** ** Sequencing and loops *)

Lemma bind_Ok {A B : Type} (m : result A) (k : A -> result B) (b : B) :
  bind m k = Ok b -> exists a, m = Ok a /\ k a = Ok b.
Proof. destruct m as [a|e]; simpl; [eauto | discriminate]. Qed.

Lemma for_each_app {A S : Type} (xs ys : list A) (body : A -> S -> result S) (s : S) :
  for_each (xs ++ ys) body s = let* s' := for_each xs body s in for_each ys body s'.
Proof.
  revert s. induction xs as [|x xs IH]; intros s; simpl; [reflexivity|].
  destruct (body x s) as [s'|e]; simpl; [apply IH | reflexivity].
Qed.

(** A property kept by every iteration that returns is kept by the loop. *)
Lemma for_each_inv {A S : Type} (P : S -> Prop) (body : A -> S -> result S) (xs : list A) :
  (forall x s s', x ∈ xs -> P s -> body x s = Ok s' -> P s') ->
  forall s s', P s -> for_each xs body s = Ok s' -> P s'.
Proof.
  induction xs as [|x xs IH]; intros Hstep s s' Hs Hrun; simpl in Hrun.
  - congruence.
  - apply bind_Ok in Hrun as (s1 & H1 & H2).
    apply (IH (fun y t t' Hy => Hstep y t t' (list_elem_of_further _ _ _ Hy)) s1 s');
      [|exact H2].
    eapply Hstep; [constructor | exact Hs | exact H1].
Qed.

Lemma sum_nat_from (xs : list nat) (a : nat) :
  fold_left Nat.add xs a = a + sum_nat xs.
Proof.
  unfold sum_nat. revert a. induction xs as [|x xs IH]; intros a; simpl; [lia|].
  rewrite (IH (a + x)), (IH x). lia.
Qed.

Lemma sum_nat_cons (x : nat) (xs : list nat) : sum_nat (x :: xs) = x + sum_nat xs.
Proof. unfold sum_nat at 1. simpl. apply sum_nat_from. Qed.

(** ** The Span Indexer *)

Lemma getitem_middle {A : Type} (pre post : list A) (x : A) :
  getitem (pre ++ x :: post) (length pre) = Ok x.
Proof. unfold getitem. rewrite list_lookup_middle by reflexivity. reflexivity. Qed.

Lemma insert_middle {A : Type} (pre post : list A) (x y : A) :
  <[length pre := y]> (pre ++ x :: post) = pre ++ y :: post.
Proof.
  rewrite <- (Nat.add_0_r (length pre)). rewrite insert_app_r. reflexivity.
Qed.

Lemma index_loop_layout (ws : list string) :
  Forall (fun w => 0 < String.length w) ws ->
  forall (k : nat) (pre : list span_entry),
    for_each (enumerate_from k ws) index_body
      (pre ++ replicate (sum_nat (map String.length ws)) empty_entry, length pre)
    = Ok (pre ++ layout k (length pre) (map String.length ws),
          length pre + sum_nat (map String.length ws)).
Proof.
  induction 1 as [|w ws Hw _ IH]; intros k pre.
  - simpl. rewrite Nat.add_0_r. reflexivity.
  - cbn [map enumerate_from for_each layout]. rewrite sum_nat_cons.
    destruct (String.length w) as [|n] eqn:En; [lia|].
    cbn [Nat.add replicate index_body]. rewrite En.
    unfold set_end. rewrite getitem_middle. cbn [bind]. rewrite insert_middle.
    cbn [ent_word_idx empty_entry].
    unfold set_word_idx. rewrite getitem_middle. cbn [bind]. rewrite insert_middle.
    cbn [ent_end]. rewrite replicate_add.
    change (SpanEntry None None) with empty_entry.
    set (pre' := pre ++ SpanEntry (Some (length pre + S n)) (Some k)
                     :: replicate n empty_entry).
    assert (Hlen : length pre' = length pre + S n).
    { subst pre'. rewrite length_app. cbn [length]. rewrite length_replicate. lia. }
    replace (pre ++ SpanEntry (Some (length pre + S n)) (Some k)
                 :: replicate n empty_entry
                 ++ replicate (sum_nat (map String.length ws)) empty_entry)
      with (pre' ++ replicate (sum_nat (map String.length ws)) empty_entry)
      by (subst pre'; rewrite <- app_assoc; reflexivity).
    rewrite <- Hlen. rewrite IH. rewrite Hlen.
    subst pre'. rewrite <- app_assoc. cbn [app].
    rewrite Nat.sub_succ, Nat.sub_0_r.
    do 2 f_equal. lia.
Qed.

Lemma generate_start_end_map_layout (ws : list string) :
  Forall (fun w => 0 < String.length w) ws ->
  generate_start_end_map ws = Ok (layout 0 0 (map String.length ws)).
Proof.
  intros Hws. unfold generate_start_end_map, enumerate.
  pose proof (index_loop_layout ws Hws 0 []) as H. cbn [app length] in H.
  rewrite H. reflexivity.
Qed.

Lemma start_of_S (n : nat) (lens : list nat) (j : nat) :
  start_of (n :: lens) (S j) = n + start_of lens j.
Proof. unfold start_of. cbn [take]. apply sum_nat_cons. Qed.

Lemma start_of_lt (lens : list nat) :
  Forall (fun n => 0 < n) lens ->
  forall j n, lens !! j = Some n -> start_of lens j + n <= sum_nat lens.
Proof.
  induction 1 as [|m lens Hm _ IH]; intros j n Hj; [discriminate|].
  destruct j as [|j]; cbn in Hj.
  - injection Hj as ->. unfold start_of. cbn [take]. rewrite sum_nat_cons.
    unfold sum_nat at 1. simpl. lia.
  - rewrite start_of_S, sum_nat_cons. specialize (IH j n Hj). lia.
Qed.

Lemma start_of_mono (lens : list nat) :
  Forall (fun n => 0 < n) lens ->
  forall j1 j2, j1 < j2 -> j2 < length lens -> start_of lens j1 < start_of lens j2.
Proof.
  induction 1 as [|m lens Hm _ IH]; intros j1 j2 Hlt Hlen; cbn in Hlen; [lia|].
  destruct j2 as [|j2]; [lia|]. rewrite start_of_S.
  destruct j1 as [|j1].
  - unfold start_of at 1. cbn. unfold sum_nat. simpl. lia.
  - rewrite start_of_S. specialize (IH j1 j2). lia.
Qed.

Lemma start_of_inj (lens : list nat) :
  Forall (fun n => 0 < n) lens ->
  forall j1 j2, j1 < length lens -> j2 < length lens ->
    start_of lens j1 = start_of lens j2 -> j1 = j2.
Proof.
  intros Hpos j1 j2 H1 H2 Heq.
  destruct (Nat.lt_trichotomy j1 j2) as [Hlt|[->|Hlt]]; [|reflexivity|].
  - pose proof (start_of_mono lens Hpos j1 j2 Hlt H2). lia.
  - pose proof (start_of_mono lens Hpos j2 j1 Hlt H1). lia.
Qed.

Lemma length_layout (lens : list nat) :
  Forall (fun n => 0 < n) lens ->
  forall k s, length (layout k s lens) = sum_nat lens.
Proof.
  induction 1 as [|n lens Hn _ IH]; intros k s; [reflexivity|].
  cbn [layout length]. rewrite length_app, length_replicate, IH, sum_nat_cons. lia.
Qed.

Lemma layout_lookup_inv (lens : list nat) :
  Forall (fun n => 0 < n) lens ->
  forall k s i ent, layout k s lens !! i = Some ent ->
    ent = empty_entry \/
    exists j n, lens !! j = Some n /\ i = start_of lens j /\
                ent = SpanEntry (Some (s + i + n)) (Some (k + j)).
Proof.
  induction 1 as [|n lens Hn Hpos IH]; intros k s i ent Hi; [discriminate|].
  cbn [layout] in Hi. destruct i as [|i].
  - injection Hi as <-. right. exists 0, n. repeat split.
    rewrite !Nat.add_0_r. reflexivity.
  - change ((replicate (n - 1) empty_entry ++ layout (S k) (s + n) lens) !! i
            = Some ent) in Hi.
    destruct (decide (i < n - 1)) as [Hlt|Hge].
    + rewrite lookup_app_l in Hi by (rewrite length_replicate; lia).
      apply lookup_replicate in Hi as [-> _]. left. reflexivity.
    + rewrite lookup_app_r in Hi by (rewrite length_replicate; lia).
      rewrite length_replicate in Hi.
      destruct (IH _ _ _ _ Hi) as [->|(j & n' & Hj & Hij & ->)]; [left; reflexivity|].
      right. exists (S j), n'. split; [exact Hj|]. split.
      * rewrite start_of_S. lia.
      * f_equal; f_equal; lia.
Qed.

Lemma layout_lookup_start (lens : list nat) :
  Forall (fun n => 0 < n) lens ->
  forall k s j n, lens !! j = Some n ->
    layout k s lens !! start_of lens j
    = Some (SpanEntry (Some (s + start_of lens j + n)) (Some (k + j))).
Proof.
  induction 1 as [|m lens Hm Hpos IH]; intros k s j n Hj; [discriminate|].
  destruct j as [|j]; cbn in Hj.
  - injection Hj as ->. cbn. rewrite !Nat.add_0_r. reflexivity.
  - rewrite start_of_S. cbn [layout].
    replace (m + start_of lens j) with (S ((m - 1) + start_of lens j)) by lia.
    rewrite lookup_cons_ne_0 by lia. cbn [Nat.pred].
    rewrite lookup_app_r by (rewrite length_replicate; lia).
    rewrite length_replicate.
    replace (m - 1 + start_of lens j - (m - 1)) with (start_of lens j) by lia.
    rewrite (IH _ _ _ _ Hj). do 3 f_equal; lia.
Qed.

(** ** The Alignment Builder *)

Lemma table_entry (lens : list nat) (i : nat) (ent : span_entry) :
  Forall (fun n => 0 < n) lens ->
  layout 0 0 lens !! i = Some ent ->
  ent = empty_entry \/
  exists j n, lens !! j = Some n /\ i = start_of lens j /\
              ent = SpanEntry (Some (i + n)) (Some j).
Proof.
  intros Hpos Hi.
  destruct (layout_lookup_inv lens Hpos 0 0 i ent Hi) as [->|(j & n & Hj & Hij & ->)];
    [left; reflexivity | right; exists j, n; auto].
Qed.

Lemma table_word_at (lens : list nat) (i j : nat) :
  Forall (fun n => 0 < n) lens ->
  word_at (layout 0 0 lens) i = Some j ->
  i = start_of lens j /\
  exists n, lens !! j = Some n /\
            layout 0 0 lens !! i = Some (SpanEntry (Some (i + n)) (Some j)).
Proof.
  intros Hpos Hw. unfold word_at in Hw.
  destruct (layout 0 0 lens !! i) as [ent|] eqn:Hi; [|discriminate].
  destruct (table_entry lens i ent Hpos Hi) as [->|(j' & n & Hj & Hij & ->)];
    [discriminate|].
  cbn in Hw. injection Hw as ->. split; [exact Hij|]. exists n. auto.
Qed.

Lemma table_word_at_inj (lens : list nat) (i1 i2 j : nat) :
  Forall (fun n => 0 < n) lens ->
  word_at (layout 0 0 lens) i1 = Some j ->
  word_at (layout 0 0 lens) i2 = Some j -> i1 = i2.
Proof.
  intros Hpos H1 H2.
  apply (table_word_at lens i1 j Hpos) in H1 as [-> _].
  apply (table_word_at lens i2 j Hpos) in H2 as [-> _]. reflexivity.
Qed.

Lemma matched_words (plens glens : list nat) (i : nat) :
  Forall (fun n => 0 < n) plens -> Forall (fun n => 0 < n) glens ->
  matched (layout 0 0 plens) (layout 0 0 glens) i = true ->
  exists p g, word_at (layout 0 0 plens) i = Some p /\
              word_at (layout 0 0 glens) i = Some g /\
              p < length plens /\ g < length glens.
Proof.
  intros Hp Hg Hm. unfold matched in Hm. unfold word_at.
  destruct (layout 0 0 plens !! i) as [pe|] eqn:Hpi; [|discriminate].
  destruct (layout 0 0 glens !! i) as [ge|] eqn:Hgi; [|destruct pe as [[?|] ?]; discriminate].
  destruct (table_entry plens i pe Hp Hpi) as [->|(p & n & Hpj & _ & ->)]; [discriminate|].
  destruct (table_entry glens i ge Hg Hgi) as [->|(g & n' & Hgj & _ & ->)]; [discriminate|].
  exists p, g. cbn. repeat split.
  - apply lookup_lt_Some in Hpj. exact Hpj.
  - apply lookup_lt_Some in Hgj. exact Hgj.
Qed.

(** One iteration of the alignment loop, over well-formed span tables: the
    offset is skipped, or it is a matched one and one map entry is set. *)
Lemma align_body_step (plens glens : list nat) (i c : nat) (m : list (option nat)) :
  Forall (fun n => 0 < n) plens -> Forall (fun n => 0 < n) glens ->
  i < sum_nat plens ->
  (forall j, j < length plens -> i = start_of plens j -> i < sum_nat glens) ->
  length m = length plens + 1 ->
  let pm := layout 0 0 plens in
  let gm := layout 0 0 glens in
  (matched pm gm i = false /\ align_body pm gm i (m, c) = Ok (m, c)) \/
  (exists p g, matched pm gm i = true /\ word_at pm i = Some p /\
               word_at gm i = Some g /\
               align_body pm gm i (m, c) = Ok (<[S p := Some (S g)]> m, S c)).
Proof.
  intros Hp Hg Hi Hin Hm pm gm. unfold align_body, matched, word_at.
  destruct (lookup_lt_is_Some_2 pm i) as [pe Hpe];
    [subst pm; rewrite length_layout by assumption; exact Hi|].
  unfold getitem. rewrite Hpe. cbn [bind].
  destruct (table_entry plens i pe Hp Hpe) as [->|(p & n & Hpj & Hip & ->)].
  { left. cbn. auto. }
  cbn [ent_end ent_word_idx].
  assert (Hpl : p < length plens) by (eapply lookup_lt_Some; exact Hpj).
  destruct (lookup_lt_is_Some_2 gm i) as [ge Hge].
  { subst gm. rewrite length_layout by assumption. exact (Hin p Hpl Hip). }
  rewrite Hge. cbn [bind].
  destruct (table_entry glens i ge Hg Hge) as [->|(g & n' & Hgj & Hig & ->)].
  { left. cbn. auto. }
  cbn [ent_end ent_word_idx].
  destruct (i + n' =? i + n) eqn:He; [|left; auto].
  right. exists p, g. repeat split.
  unfold setitem. rewrite decide_True by lia. cbn [bind].
  rewrite !Nat.add_1_r. reflexivity.
Qed.

Lemma align_loop (plens glens : list nat) :
  Forall (fun n => 0 < n) plens -> Forall (fun n => 0 < n) glens ->
  let pm := layout 0 0 plens in
  let gm := layout 0 0 glens in
  forall j, j <= sum_nat plens ->
  (forall k, k < length plens -> start_of plens k < j ->
             start_of plens k < sum_nat glens) ->
  exists m c,
    for_each (seq 0 j) (align_body pm gm)
      (<[0 := Some 0]> (replicate (length plens + 1) None), 0) = Ok (m, c) /\
    aligned_upto pm gm (length plens) j m c.
Proof.
  intros Hp Hg pm gm. induction j as [|j IH]; intros Hj Hin.
  - eexists _, _. split; [reflexivity|]. unfold aligned_upto. repeat split.
    + rewrite length_insert, length_replicate. reflexivity.
    + rewrite Nat.add_1_r. reflexivity.
    + intros H. rewrite list_lookup_insert_ne in H by lia.
      apply lookup_replicate in H as [? _]. discriminate.
    + intros (i & _ & Hi & _). lia.
  - destruct IH as (m & c & Hrun & Hlen & Hroot & Hc & Hent);
      [lia | intros k Hk Hlt; apply Hin; [exact Hk | lia] |].
    rewrite seq_S, for_each_app, Hrun. cbn [bind for_each Nat.add].
    assert (Hin' : forall k, k < length plens -> j = start_of plens k ->
                             j < sum_nat glens).
    { intros k Hk ->. apply Hin; [exact Hk | lia]. }
    pose proof (align_body_step plens glens j c m Hp Hg ltac:(lia) Hin' Hlen) as Hs.
    cbv zeta in Hs. fold pm gm in Hs.
    destruct Hs as [[Hno Hstep]|(p & g & Hyes & Hwp & Hwg & Hstep)];
      rewrite Hstep; cbn [bind].
    + exists m, c. split; [reflexivity|]. unfold aligned_upto. repeat split; try assumption.
      * rewrite seq_S, filter_app, filter_cons_False, filter_nil, app_nil_r
          by (cbn [Nat.add]; congruence).
        exact Hc.
      * intros H. apply Hent in H as (i & g & Hi & H). exists i, g. split; [lia|exact H].
      * intros (i & g & Hi & Hmi & H). apply Hent. exists i, g. split; [|auto].
        destruct (decide (i = j)) as [->|]; [congruence|lia].
    + destruct (matched_words plens glens j Hp Hg Hyes) as (p' & g' & Hwp' & Hwg' & Hpl & Hgl).
      fold pm in Hwp'. fold gm in Hwg'. fold pm gm in Hyes.
      assert (p' = p) as -> by congruence. assert (g' = g) as -> by congruence.
      exists (<[S p := Some (S g)]> m), (S c). split; [reflexivity|].
      unfold aligned_upto. repeat split.
      * rewrite length_insert. exact Hlen.
      * rewrite list_lookup_insert_ne by lia. exact Hroot.
      * rewrite seq_S, filter_app, filter_cons_True, filter_nil by assumption.
        rewrite length_app. cbn [length]. lia.
      * intros H. destruct (decide (p0 = p)) as [->|Hne].
        -- rewrite list_lookup_insert_eq in H by lia. injection H as <-.
           exists j, g. repeat split; auto.
        -- rewrite list_lookup_insert_ne in H by lia.
           apply Hent in H as (i & g0 & Hi & H). exists i, g0. split; [lia|exact H].
      * intros (i & g0 & Hi & Hmi & Hpi & Hgi & ->).
        destruct (decide (i = j)) as [->|Hne].
        -- assert (p0 = p) as -> by congruence. assert (g0 = g) as -> by congruence.
           rewrite list_lookup_insert_eq by lia. reflexivity.
        -- assert (p0 <> p) as Hpp.
           { intros ->. apply Hne.
             eapply (table_word_at_inj plens); eassumption. }
           rewrite list_lookup_insert_ne by lia.
           apply Hent. exists i, g0. repeat split; auto. lia.
Qed.

(** ** Well-formed input *)

Lemma nonempty_words_lens (l : list word_info) :
  nonempty_words l = true -> Forall (fun n => 0 < n) (lens l).
Proof.
  unfold nonempty_words, lens. intros H.
  induction l as [|t l IH]; cbn [forallb map] in *; [constructor|].
  apply andb_prop in H as [H1 H2]. constructor; [|auto].
  apply Nat.ltb_lt in H1. exact H1.
Qed.

Lemma nonempty_words_Forall (l : list word_info) :
  nonempty_words l = true -> Forall (fun w => 0 < String.length w) (map word l).
Proof.
  unfold nonempty_words. intros H.
  induction l as [|t l IH]; cbn [forallb map] in *; [constructor|].
  apply andb_prop in H as [H1 H2]. constructor; [|auto].
  apply Nat.ltb_lt in H1. exact H1.
Qed.

Lemma length_lens (l : list word_info) : length (lens l) = length l.
Proof. unfold lens. rewrite !length_map. reflexivity. Qed.

Lemma starts_within_spec (predicted_list gold_list : list word_info) :
  starts_within predicted_list gold_list = true ->
  forall j, j < length (lens predicted_list) ->
            start_of (lens predicted_list) j < sum_nat (lens gold_list).
Proof.
  unfold starts_within, range. intros H j Hj. rewrite length_lens in Hj.
  rewrite forallb_forall in H. specialize (H j).
  apply Nat.ltb_lt, H. apply in_seq. lia.
Qed.

Lemma shorter_starts_within (predicted_list gold_list : list word_info) :
  nonempty_words predicted_list = true ->
  stream_len predicted_list <= stream_len gold_list ->
  starts_within predicted_list gold_list = true.
Proof.
  intros Hne Hle. unfold starts_within, range. apply forallb_forall.
  intros j Hj. apply in_seq in Hj. apply Nat.ltb_lt.
  pose proof (nonempty_words_lens _ Hne) as Hpos.
  destruct (lookup_lt_is_Some_2 (lens predicted_list) j) as [n Hn];
    [rewrite length_lens; lia|].
  pose proof (start_of_lt _ Hpos j n Hn) as H1.
  assert (0 < n) by (eapply (proj1 (Forall_lookup _ _) Hpos); exact Hn).
  unfold stream_len in *. fold (lens predicted_list) in Hle. lia.
Qed.

(** The alignment of well-formed spans: the function returns, and its
    result is the state of the loop after every offset. *)
Lemma map_predicted_with_gold_words_spec (predicted_list gold_list : list word_info) :
  spans_ok predicted_list gold_list = true ->
  exists m c,
    map_predicted_with_gold_words predicted_list gold_list = Ok (m, c) /\
    aligned_upto (layout 0 0 (lens predicted_list)) (layout 0 0 (lens gold_list))
      (length predicted_list) (stream_len predicted_list) m c.
Proof.
  intros H. unfold spans_ok in H.
  apply andb_prop in H as [H Hin]. apply andb_prop in H as [Hp Hg].
  unfold map_predicted_with_gold_words.
  rewrite (generate_start_end_map_layout _ (nonempty_words_Forall _ Hp)).
  rewrite (generate_start_end_map_layout _ (nonempty_words_Forall _ Hg)).
  cbn [bind]. unfold setitem.
  rewrite decide_True by (rewrite length_replicate; lia). cbn [bind].
  fold (lens predicted_list) (lens gold_list).
  pose proof (nonempty_words_lens _ Hp) as Hp'.
  pose proof (nonempty_words_lens _ Hg) as Hg'.
  rewrite length_layout by exact Hp'. unfold range.
  destruct (align_loop _ _ Hp' Hg' (sum_nat (lens predicted_list)) (le_n _)
              (fun k Hk _ => starts_within_spec _ _ Hin k Hk))
    as (m & c & Hrun & Hinv).
  rewrite length_lens in Hrun, Hinv.
  exists m, c. split; [exact Hrun | exact Hinv].
Qed.

(** ** Counting *)

Lemma NoDup_inj_length {A B : Type} (f : A -> B) (l : list A) (k : list B) :
  NoDup l ->
  (forall x y, x ∈ l -> y ∈ l -> f x = f y -> x = y) ->
  (forall x, x ∈ l -> f x ∈ k) ->
  length l <= length k.
Proof.
  intros Hnd Hinj Hin. rewrite <- (length_fmap f l).
  apply submseteq_length, NoDup_submseteq.
  - apply NoDup_fmap_2_strong; assumption.
  - intros y Hy. apply list_elem_of_fmap in Hy as (x & -> & Hx). auto.
Qed.

Lemma filter_length_mono {A : Type} (P Q : A -> Prop)
  `{forall x, Decision (P x)} `{forall x, Decision (Q x)} (l : list A) :
  (forall x, x ∈ l -> P x -> Q x) ->
  length (filter P l) <= length (filter Q l).
Proof.
  induction l as [|x l IH]; intros HPQ; [reflexivity|].
  assert (IH' : length (filter P l) <= length (filter Q l)).
  { apply IH. intros y Hy. apply HPQ. right. exact Hy. }
  rewrite !filter_cons.
  destruct (decide (P x)) as [HP|HP].
  - rewrite decide_True by (apply HPQ; [left|exact HP]). cbn. lia.
  - destruct (decide (Q x)); cbn; lia.
Qed.

Lemma elem_of_enumerate_from {A : Type} (l : list A) (k i : nat) (x : A) :
  (i, x) ∈ enumerate_from k l <-> k <= i /\ l !! (i - k) = Some x.
Proof.
  revert k. induction l as [|y l IH]; intros k; cbn [enumerate_from].
  - split; [intros H; inversion H | intros [_ H]; discriminate].
  - rewrite elem_of_cons, IH. split.
    + intros [Heq|[Hle Hl]].
      * injection Heq as -> ->. rewrite Nat.sub_diag. auto.
      * split; [lia|]. replace (i - k) with (S (i - S k)) by lia. exact Hl.
    + intros [Hle Hl]. destruct (decide (i = k)) as [->|Hne].
      * left. rewrite Nat.sub_diag in Hl. cbn in Hl. congruence.
      * right. split; [lia|]. replace (i - k) with (S (i - S k)) in Hl by lia. exact Hl.
Qed.

Lemma elem_of_enumerate {A : Type} (l : list A) (i : nat) (x : A) :
  (i, x) ∈ enumerate l <-> l !! i = Some x.
Proof.
  unfold enumerate. rewrite elem_of_enumerate_from, Nat.sub_0_r.
  split; [tauto | split; [lia | assumption]].
Qed.

Lemma fst_enumerate_from {A : Type} (l : list A) (k : nat) :
  fst <$> enumerate_from k l = seq k (length l).
Proof.
  revert k. induction l as [|y l IH]; intros k; cbn; [reflexivity|].
  rewrite IH. reflexivity.
Qed.

Lemma NoDup_enumerate {A : Type} (l : list A) : NoDup (enumerate l).
Proof.
  apply (NoDup_fmap_1 fst). unfold enumerate.
  rewrite fst_enumerate_from. apply NoDup_seq.
Qed.

Lemma length_enumerate {A : Type} (l : list A) : length (enumerate l) = length l.
Proof.
  rewrite <- (length_fmap fst). unfold enumerate.
  rewrite fst_enumerate_from. apply length_seq.
Qed.

(** A loop that adds one to its counter at the items that satisfy [P]. *)
Lemma count_loop {A : Type} (body : A -> nat -> result nat) (P : A -> bool)
  (xs : list A) :
  (forall x c, x ∈ xs -> body x c = Ok (if P x then c + 1 else c)) ->
  forall c0, for_each xs body c0
             = Ok (c0 + length (filter (fun x => P x = true) xs)).
Proof.
  induction xs as [|x xs IH]; intros Hbody c0; cbn [for_each].
  - rewrite filter_nil. cbn. rewrite Nat.add_0_r. reflexivity.
  - rewrite Hbody by left. cbn [bind].
    rewrite IH by (intros y c Hy; apply Hbody; right; exact Hy).
    destruct (P x) eqn:HP.
    + rewrite filter_cons_True by exact HP. cbn [length]. f_equal. lia.
    + rewrite filter_cons_False by congruence. reflexivity.
Qed.

(** A loop with two counters: the first counts the items that satisfy [P],
    the second those that satisfy [Q] as well. *)
Lemma count2_loop {A : Type} (body : A -> nat * nat -> result (nat * nat))
  (P Q : A -> bool) (xs : list A) :
  (forall x u l, x ∈ xs ->
     body x (u, l) = Ok (if P x then (u + 1, if Q x then l + 1 else l) else (u, l))) ->
  forall u0 l0, for_each xs body (u0, l0)
    = Ok (u0 + length (filter (fun x => P x = true) xs),
          l0 + length (filter (fun x => P x && Q x = true) xs)).
Proof.
  induction xs as [|x xs IH]; intros Hbody u0 l0; cbn [for_each].
  - rewrite !filter_nil. cbn. rewrite !Nat.add_0_r. reflexivity.
  - rewrite Hbody by left.
    assert (IH' := IH (fun y u l Hy => Hbody y u l (list_elem_of_further _ _ _ Hy))).
    destruct (P x) eqn:HP; [destruct (Q x) eqn:HQ|]; cbn [bind andb]; rewrite IH'.
    + rewrite !filter_cons_True by (rewrite ?HP, ?HQ; reflexivity).
      cbn [length]. f_equal. f_equal; lia.
    + rewrite filter_cons_True by exact HP.
      rewrite filter_cons_False by (rewrite HP, HQ; discriminate).
      cbn [length]. f_equal. f_equal; lia.
    + rewrite !filter_cons_False by (rewrite ?HP; cbn; congruence). reflexivity.
Qed.

(** ** The Attribute Scorer *)

Lemma getitem_int_nonneg {A : Type} (l : list A) (i : nat) :
  getitem_int l (Z.of_nat i) = getitem l i.
Proof.
  unfold getitem_int. destruct (Z.ltb_spec (Z.of_nat i) 0); [lia|].
  rewrite Nat2Z.id. reflexivity.
Qed.

Lemma getitem_Some {A : Type} (l : list A) (i : nat) (x : A) :
  l !! i = Some x -> getitem l i = Ok x.
Proof. unfold getitem. intros ->. reflexivity. Qed.

Lemma get_pos_match_spec (predicted_list gold_list : list word_info)
  (m : list (option nat)) :
  map_fits (length predicted_list) (length gold_list) m ->
  get_pos_match predicted_list gold_list m
  = Ok (count (pos_correct gold_list m) (enumerate predicted_list)).
Proof.
  intros [Hlen Hval]. unfold get_pos_match, count.
  rewrite (count_loop _ (pos_correct gold_list m)); [reflexivity|].
  intros [i t] c Hit. apply elem_of_enumerate in Hit.
  apply lookup_lt_Some in Hit.
  unfold pos_body, pos_correct. cbn [fst snd].
  destruct (lookup_lt_is_Some_2 m (i + 1)) as [e He]; [lia|].
  rewrite (getitem_Some _ _ _ He), He. cbn [bind].
  destruct e as [v|]; [|reflexivity].
  rewrite Nat.add_1_r in He. destruct (Hval _ _ He) as (g & -> & Hg).
  replace (Z.of_nat (S g) - 1)%Z with (Z.of_nat g) by lia.
  rewrite getitem_int_nonneg. cbn [Nat.sub]. rewrite Nat.sub_0_r.
  destruct (lookup_lt_is_Some_2 gold_list g Hg) as [gt Hgt].
  rewrite (getitem_Some _ _ _ Hgt), Hgt. cbn [bind].
  destruct (String.eqb (pos t) (pos gt)); reflexivity.
Qed.

Lemma heads_ok_spec (predicted_list : list word_info) (i : nat) (t : word_info) :
  heads_ok predicted_list = true -> predicted_list !! i = Some t ->
  (0 <= head_idx t <= Z.of_nat (length predicted_list))%Z.
Proof.
  unfold heads_ok. rewrite forallb_forall. intros H Hi.
  specialize (H t). rewrite andb_true_iff, Z.leb_le, Z.leb_le in H.
  apply H. apply list_elem_of_In. eapply list_elem_of_lookup_2. exact Hi.
Qed.

Lemma heads_ok_aligned (predicted_list : list word_info) (m : list (option nat)) :
  heads_ok predicted_list = true -> aligned_heads_ok predicted_list m.
Proof. intros H i t Hi _. eapply heads_ok_spec; eassumption. Qed.

Lemma uas_las_body_spec (predicted_list gold_list : list word_info)
  (m : list (option nat)) (i : nat) (t : word_info) (u l : nat) :
  map_fits (length predicted_list) (length gold_list) m ->
  aligned_heads_ok predicted_list m ->
  predicted_list !! i = Some t ->
  uas_las_body gold_list m (i, t) (u, l)
  = Ok (if unlabeled_correct gold_list m (i, t)
        then (u + 1, if label_correct gold_list m (i, t) then l + 1 else l)
        else (u, l)).
Proof.
  intros [Hlen Hval] Hheads Hit.
  specialize (Hheads i t Hit). unfold is_aligned in Hheads. cbn [fst] in Hheads.
  apply lookup_lt_Some in Hit.
  unfold uas_las_body, unlabeled_correct, label_correct. cbn [fst snd].
  destruct (lookup_lt_is_Some_2 m (i + 1)) as [e He]; [lia|].
  rewrite (getitem_Some _ _ _ He), He. rewrite He in Hheads. cbn [bind].
  destruct e as [v|]; [|reflexivity]. specialize (Hheads eq_refl).
  rewrite Nat.add_1_r in He. destruct (Hval _ _ He) as (g & -> & Hg).
  replace (Z.of_nat (S g) - 1)%Z with (Z.of_nat g) by lia.
  rewrite getitem_int_nonneg. cbn [Nat.sub]. rewrite Nat.sub_0_r.
  destruct (lookup_lt_is_Some_2 gold_list g Hg) as [gt Hgt].
  rewrite (getitem_Some _ _ _ Hgt), Hgt. cbn [bind].
  rewrite <- (Z2Nat.id (head_idx t)) at 1 by lia.
  rewrite getitem_int_nonneg.
  destruct (lookup_lt_is_Some_2 m (Z.to_nat (head_idx t))) as [he Hhe]; [lia|].
  rewrite (getitem_Some _ _ _ Hhe), Hhe. cbn [bind].
  unfold entry_eq_int. destruct he as [hg|]; [|reflexivity].
  destruct (Z.of_nat hg =? head_idx gt)%Z; [|reflexivity].
  destruct (String.eqb (dep_label t) (dep_label gt)); reflexivity.
Qed.

Lemma get_uas_las_match_spec (predicted_list gold_list : list word_info)
  (m : list (option nat)) :
  map_fits (length predicted_list) (length gold_list) m ->
  aligned_heads_ok predicted_list m ->
  get_uas_las_match predicted_list gold_list m
  = Ok (count (unlabeled_correct gold_list m) (enumerate predicted_list),
        count (labeled_correct gold_list m) (enumerate predicted_list)).
Proof.
  intros Hfits Hheads. unfold get_uas_las_match, count, labeled_correct.
  rewrite (count2_loop _ (unlabeled_correct gold_list m) (label_correct gold_list m));
    [reflexivity|].
  intros [i t] u l Hit. apply elem_of_enumerate in Hit.
  eapply uas_las_body_spec; eassumption.
Qed.

(** ** What the alignment of well-formed spans satisfies *)

Section Alignment.
Variables predicted_list gold_list : list word_info.
Variable m : list (option nat).
Variable c : nat.
Hypothesis Hpred : nonempty_words predicted_list = true.
Hypothesis Hgold : nonempty_words gold_list = true.
Hypothesis Halign : alignment_of predicted_list gold_list m c.

Let pm := layout 0 0 (lens predicted_list).
Let gm := layout 0 0 (lens gold_list).
Let Hp := nonempty_words_lens predicted_list Hpred.
Let Hg := nonempty_words_lens gold_list Hgold.

Lemma alignment_map_fits :
  map_fits (length predicted_list) (length gold_list) m.
Proof.
  destruct Halign as (Hlen & _ & _ & Hent). split; [exact Hlen|].
  intros p v Hv. apply Hent in Hv as (i & g & _ & Hm & _ & Hgi & ->).
  exists g. split; [reflexivity|].
  destruct (matched_words _ _ i Hp Hg Hm) as (p' & g' & _ & Hg' & _ & Hlt).
  rewrite length_lens in Hlt. congruence.
Qed.

Lemma alignment_injective (p1 p2 v : nat) :
  m !! p1 = Some (Some v) -> m !! p2 = Some (Some v) -> p1 = p2.
Proof.
  destruct Halign as (_ & Hroot & _ & Hent). intros H1 H2.
  destruct p1 as [|p1], p2 as [|p2]; [reflexivity| | |].
  - rewrite Hroot in H1. injection H1 as <-.
    apply Hent in H2 as (? & ? & _ & _ & _ & _ & ?). discriminate.
  - rewrite Hroot in H2. injection H2 as <-.
    apply Hent in H1 as (? & ? & _ & _ & _ & _ & ?). discriminate.
  - apply Hent in H1 as (i1 & g1 & _ & _ & Hp1 & Hg1 & ->).
    apply Hent in H2 as (i2 & g2 & _ & _ & Hp2 & Hg2 & [= <-]).
    assert (i1 = i2) as -> by (eapply (table_word_at_inj (lens gold_list)); eassumption).
    congruence.
Qed.

Lemma alignment_count_le_predicted : c <= length predicted_list.
Proof.
  destruct Halign as (_ & _ & -> & _).
  etransitivity;
    [apply (NoDup_inj_length (fun i => default 0 (word_at pm i)) _
              (seq 0 (length predicted_list)))
    |rewrite length_seq; reflexivity].
  - apply NoDup_filter, NoDup_seq.
  - intros x y Hx Hy Hxy.
    apply list_elem_of_filter in Hx as [Hx _]. apply list_elem_of_filter in Hy as [Hy _].
    destruct (matched_words _ _ x Hp Hg Hx) as (px & _ & Hpx & _).
    destruct (matched_words _ _ y Hp Hg Hy) as (py & _ & Hpy & _).
    subst pm. rewrite Hpx, Hpy in Hxy. cbn in Hxy. subst py.
    eapply (table_word_at_inj (lens predicted_list)); eassumption.
  - intros x Hx. apply list_elem_of_filter in Hx as [Hx _].
    destruct (matched_words _ _ x Hp Hg Hx) as (px & _ & Hpx & _ & Hlt & _).
    subst pm. rewrite Hpx. cbn. rewrite length_lens in Hlt.
    apply elem_of_seq. lia.
Qed.

Lemma alignment_count_le_gold : c <= length gold_list.
Proof.
  destruct Halign as (_ & _ & -> & _).
  etransitivity;
    [apply (NoDup_inj_length (fun i => default 0 (word_at gm i)) _
              (seq 0 (length gold_list)))
    |rewrite length_seq; reflexivity].
  - apply NoDup_filter, NoDup_seq.
  - intros x y Hx Hy Hxy.
    apply list_elem_of_filter in Hx as [Hx _]. apply list_elem_of_filter in Hy as [Hy _].
    destruct (matched_words _ _ x Hp Hg Hx) as (_ & gx & _ & Hgx & _).
    destruct (matched_words _ _ y Hp Hg Hy) as (_ & gy & _ & Hgy & _).
    subst gm. rewrite Hgx, Hgy in Hxy. cbn in Hxy. subst gy.
    eapply (table_word_at_inj (lens gold_list)); eassumption.
  - intros x Hx. apply list_elem_of_filter in Hx as [Hx _].
    destruct (matched_words _ _ x Hp Hg Hx) as (_ & gx & _ & Hgx & _ & Hlt).
    subst gm. rewrite Hgx. cbn. rewrite length_lens in Hlt.
    apply elem_of_seq. lia.
Qed.

(** The aligned predicted tokens are as many as the count says. *)
Lemma alignment_aligned_le_count :
  count (is_aligned m) (enumerate predicted_list) <= c.
Proof.
  destruct Halign as (_ & _ & -> & Hent). unfold count.
  apply (NoDup_inj_length (fun it => start_of (lens predicted_list) (fst it))).
  - apply NoDup_filter, NoDup_enumerate.
  - intros [i t] [i' t'] Hx Hy Hxy. cbn [fst] in Hxy.
    apply list_elem_of_filter in Hx as [_ Hx]. apply list_elem_of_filter in Hy as [_ Hy].
    apply elem_of_enumerate in Hx, Hy.
    assert (i = i') as <-.
    { apply (start_of_inj (lens predicted_list) Hp); [| |exact Hxy];
        rewrite length_lens; eapply lookup_lt_Some; eassumption. }
    congruence.
  - intros [i t] Hx. cbn [fst].
    apply list_elem_of_filter in Hx as [Hal _]. unfold is_aligned in Hal.
    cbn [fst] in Hal. rewrite Nat.add_1_r in Hal.
    destruct (m !! S i) as [[v|]|] eqn:Hv; try discriminate.
    apply Hent in Hv as (i0 & g & Hi0 & Hm & Hw & _).
    apply (table_word_at _ _ _ Hp) in Hw as [<- _].
    apply list_elem_of_filter. split; [exact Hm|].
    apply elem_of_seq. lia.
Qed.
End Alignment.

Lemma count_le_aligned (m : list (option nat))
  (P : nat * word_info -> bool) (l : list (nat * word_info)) :
  (forall it, P it = true -> is_aligned m it = true) ->
  count P l <= count (is_aligned m) l.
Proof.
  intros H. unfold count. apply filter_length_mono. intros it _. apply H.
Qed.

Lemma pos_correct_aligned (gold_list : list word_info) (m : list (option nat))
  (it : nat * word_info) :
  pos_correct gold_list m it = true -> is_aligned m it = true.
Proof.
  unfold pos_correct, is_aligned.
  destruct (m !! (fst it + 1)) as [[?|]|]; auto.
Qed.

Lemma unlabeled_correct_aligned (gold_list : list word_info) (m : list (option nat))
  (it : nat * word_info) :
  unlabeled_correct gold_list m it = true -> is_aligned m it = true.
Proof.
  unfold unlabeled_correct, is_aligned.
  destruct (m !! (fst it + 1)) as [[?|]|]; auto.
Qed.

Lemma labeled_le_unlabeled (gold_list : list word_info) (m : list (option nat))
  (l : list (nat * word_info)) :
  count (labeled_correct gold_list m) l <= count (unlabeled_correct gold_list m) l.
Proof.
  unfold count. apply filter_length_mono. intros it _. unfold labeled_correct.
  intros H. apply andb_prop in H as [H _]. exact H.
Qed.

(** ** The Sentence Aggregator *)

Lemma of_int_nonneg (n : nat) : (0 <= of_int n)%Q.
Proof. unfold of_int, Qle. cbn. lia. Qed.

Lemma of_int_pos (n : nat) : 0 < n -> (0 < of_int n)%Q.
Proof. unfold of_int, Qlt. cbn. lia. Qed.

Lemma of_int_le (a b : nat) : a <= b -> (of_int a <= of_int b)%Q.
Proof. unfold of_int, Qle. cbn. lia. Qed.

Lemma truediv_ok (a b : Q) : ~ (b == 0)%Q -> truediv a b = Ok (a / b)%Q.
Proof.
  intros Hb. unfold truediv. destruct (Qeq_bool b 0) eqn:E; [|reflexivity].
  apply Qeq_bool_eq in E. contradiction.
Qed.

Lemma percent_ok (a b : nat) :
  0 < b -> percent a b = Ok (of_int a / of_int b * 100)%Q.
Proof.
  intros Hb. unfold percent. rewrite truediv_ok; [reflexivity|].
  pose proof (of_int_pos b Hb). lra.
Qed.

Lemma percent_guarded_ok (a b : nat) :
  percent_guarded a b = Ok (if 0 <? b then of_int a / of_int b * 100 else 0)%Q.
Proof.
  unfold percent_guarded. destruct (Nat.ltb_spec 0 b); [|reflexivity].
  apply percent_ok. assumption.
Qed.

Lemma percent_bounds (a b : nat) :
  a <= b -> 0 < b -> (0 <= of_int a / of_int b * 100 <= 100)%Q.
Proof.
  intros Hab Hb.
  pose proof (of_int_pos b Hb) as Hb'. pose proof (of_int_nonneg a) as Ha'.
  pose proof (of_int_le a b Hab) as Hab'.
  assert (H0 : (0 <= of_int a / of_int b)%Q).
  { apply Qle_shift_div_l; [exact Hb'|]. lra. }
  assert (H1 : (of_int a / of_int b <= 1)%Q).
  { apply Qle_shift_div_r; [exact Hb'|]. lra. }
  lra.
Qed.

Lemma Qpositive_spec (a : Q) : Qpositive a = true <-> (0 < a)%Q.
Proof.
  unfold Qpositive. rewrite Qlt_alt. destruct (0 ?= a)%Q; split; congruence.
Qed.

Lemma get_f1_score_total (p r : Q) :
  exists q, get_f1_score p r = Ok q /\
            q = (if Qpositive (p + r) then 2 * (p * r) / (p + r) else 0)%Q.
Proof.
  unfold get_f1_score. destruct (Qpositive (p + r)) eqn:E.
  - apply Qpositive_spec in E. rewrite truediv_ok by lra. eauto.
  - eauto.
Qed.

Lemma f1_bounds (p r : Q) :
  (0 <= p <= 100)%Q -> (0 <= r <= 100)%Q ->
  (0 <= (if Qpositive (p + r) then 2 * (p * r) / (p + r) else 0) <= 100)%Q.
Proof.
  intros Hp Hr. destruct (Qpositive (p + r)) eqn:E; [|lra].
  apply Qpositive_spec in E. split.
  - apply Qle_shift_div_l; [exact E|]. nra.
  - apply Qle_shift_div_r; [exact E|]. nra.
Qed.

Lemma get_parser_evaluation_ok (predicted_list gold_list : list word_info)
  (m : list (option nat)) (c pc u l : nat) :
  map_predicted_with_gold_words predicted_list gold_list = Ok (m, c) ->
  get_pos_match predicted_list gold_list m = Ok pc ->
  get_uas_las_match predicted_list gold_list m = Ok (u, l) ->
  0 < length predicted_list -> 0 < length gold_list ->
  exists ev, get_parser_evaluation predicted_list gold_list = Ok ev /\
             evaluation_of (length predicted_list) (length gold_list) c pc u l ev.
Proof.
  intros Hmap Hpos Huas Hn Hg. unfold get_parser_evaluation.
  rewrite Hmap. cbn [bind]. rewrite Hpos. cbn [bind]. rewrite Huas. cbn [bind].
  rewrite !percent_ok by assumption. cbn [bind].
  rewrite !percent_guarded_ok. cbn [bind].
  destruct (get_f1_score_total (of_int c / of_int (length predicted_list) * 100)
              (of_int c / of_int (length gold_list) * 100)) as (f & Hf & _).
  destruct (get_f1_score_total (of_int u / of_int (length predicted_list) * 100)
              (of_int u / of_int (length gold_list) * 100)) as (fu & Hfu & _).
  destruct (get_f1_score_total (of_int l / of_int (length predicted_list) * 100)
              (of_int l / of_int (length gold_list) * 100)) as (fl & Hfl & _).
  rewrite Hf. cbn [bind]. rewrite Hfu. cbn [bind]. rewrite Hfl. cbn [bind].
  eexists. split; [reflexivity|].
  unfold evaluation_of. cbn. repeat split; assumption.
Qed.

(** ** The evaluation of a well-formed sentence *)

Lemma well_formed_spans (predicted_list gold_list : list word_info) :
  well_formed predicted_list gold_list = true ->
  spans_ok predicted_list gold_list = true /\
  nonempty_words predicted_list = true /\ nonempty_words gold_list = true /\
  heads_ok predicted_list = true.
Proof.
  unfold well_formed, spans_ok. intros H.
  apply andb_prop in H as [H Hh]. split; [exact H|].
  apply andb_prop in H as [H _]. apply andb_prop in H as [Hp Hg]. auto.
Qed.

Lemma spans_ok_nonempty (predicted_list gold_list : list word_info) :
  spans_ok predicted_list gold_list = true ->
  nonempty_words predicted_list = true /\ nonempty_words gold_list = true.
Proof.
  unfold spans_ok. intros H.
  apply andb_prop in H as [H _]. apply andb_prop in H as [Hp Hg]. auto.
Qed.

Lemma nonempty_length {A : Type} (l : list A) : l <> [] -> 0 < length l.
Proof. destruct l; [congruence | cbn; lia]. Qed.

Lemma get_parser_evaluation_well_formed (predicted_list gold_list : list word_info) :
  well_formed predicted_list gold_list = true ->
  predicted_list <> [] -> gold_list <> [] ->
  exists m c ev,
    map_predicted_with_gold_words predicted_list gold_list = Ok (m, c) /\
    alignment_of predicted_list gold_list m c /\
    get_parser_evaluation predicted_list gold_list = Ok ev /\
    evaluation_of (length predicted_list) (length gold_list) c
      (count (pos_correct gold_list m) (enumerate predicted_list))
      (count (unlabeled_correct gold_list m) (enumerate predicted_list))
      (count (labeled_correct gold_list m) (enumerate predicted_list)) ev.
Proof.
  intros Hwf Hp Hg.
  destruct (well_formed_spans _ _ Hwf) as (Hspans & Hpne & Hgne & Hheads).
  destruct (map_predicted_with_gold_words_spec _ _ Hspans) as (m & c & Hmap & Hal).
  pose proof (alignment_map_fits _ _ m c Hpne Hgne Hal) as Hfits.
  destruct (get_parser_evaluation_ok _ _ m c _ _ _ Hmap
              (get_pos_match_spec _ _ m Hfits)
              (get_uas_las_match_spec _ _ m Hfits (heads_ok_aligned _ m Hheads))
              (nonempty_length _ Hp) (nonempty_length _ Hg)) as (ev & Hev & Hof).
  exists m, c, ev. auto.
Qed.

(** ** The claims *)

Lemma f1_score_bounds (p r f : Q) :
  is_percentage p -> is_percentage r -> get_f1_score p r = Ok f -> is_percentage f.
Proof.
  intros Hp Hr Hf. destruct (get_f1_score_total p r) as (q & Hq & ->).
  rewrite Hq in Hf. injection Hf as <-. apply f1_bounds; assumption.
Qed.

Lemma guarded_bounds (a b : nat) :
  a <= b -> is_percentage (if 0 <? b then of_int a / of_int b * 100 else 0)%Q.
Proof.
  intros Hab. destruct (Nat.ltb_spec 0 b).
  - apply percent_bounds; assumption.
  - unfold is_percentage. lra.
Qed.

(** C7: for a well-formed input with non-empty predicted and gold lists,
    [get_parser_evaluation] returns a record whose twelve rates are all in
    [[0, 100]]; the correct segmentation count is at most either list
    length, the pos and uas match counts are at most the correct
    segmentation count, and the las count is at most the uas count. *)
Theorem evaluation_rates_in_range (predicted_list gold_list : list word_info) :
  well_formed predicted_list gold_list = true ->
  predicted_list <> [] -> gold_list <> [] ->
  exists ev,
    get_parser_evaluation predicted_list gold_list = Ok ev /\
    (is_percentage (precision ev) /\ is_percentage (recall ev) /\
     is_percentage (f1_score ev) /\ is_percentage (pos_acc ev) /\
     is_percentage (uas_score ev) /\ is_percentage (uas_precision ev) /\
     is_percentage (uas_recall ev) /\ is_percentage (uas_f1_score ev) /\
     is_percentage (las_score ev) /\ is_percentage (las_precision ev) /\
     is_percentage (las_recall ev) /\ is_percentage (las_f1_score ev)) /\
    correct_count ev <= predicted_list_len ev /\
    correct_count ev <= gold_list_len ev /\
    pos_match ev <= correct_count ev /\
    uas_match ev <= correct_count ev /\
    las_match ev <= uas_match ev.
Proof.
  intros Hwf Hp Hg.
  destruct (get_parser_evaluation_well_formed _ _ Hwf Hp Hg)
    as (m & c & ev & Hmap & Hal & Hev & Hof).
  destruct (well_formed_spans _ _ Hwf) as (_ & Hpne & Hgne & _).
  pose proof (nonempty_length _ Hp) as Hn. pose proof (nonempty_length _ Hg) as Hng.
  pose proof (alignment_count_le_predicted _ _ m c Hpne Hgne Hal) as Hcp.
  pose proof (alignment_count_le_gold _ _ m c Hpne Hgne Hal) as Hcg.
  pose proof (alignment_aligned_le_count _ _ m c Hpne Hal) as Hac.
  pose proof (count_le_aligned m _ (enumerate predicted_list)
                (pos_correct_aligned gold_list m)) as Hpos.
  pose proof (count_le_aligned m _ (enumerate predicted_list)
                (unlabeled_correct_aligned gold_list m)) as Huas.
  pose proof (labeled_le_unlabeled gold_list m (enumerate predicted_list)) as Hlas.
  destruct Hof as (E1 & E2 & E3 & E4 & E5 & E6 & Ep & Er & Ef & Epa & Eus & Eup & Eur
                   & Euf & Els & Elp & Elr & Elf).
  assert (Bp : is_percentage (precision ev))
    by (rewrite Ep; apply percent_bounds; lia).
  assert (Br : is_percentage (recall ev))
    by (rewrite Er; apply percent_bounds; lia).
  assert (Bup : is_percentage (uas_precision ev))
    by (rewrite Eup; apply percent_bounds; lia).
  assert (Bur : is_percentage (uas_recall ev))
    by (rewrite Eur; apply percent_bounds; lia).
  assert (Blp : is_percentage (las_precision ev))
    by (rewrite Elp; apply percent_bounds; lia).
  assert (Blr : is_percentage (las_recall ev))
    by (rewrite Elr; apply percent_bounds; lia).
  exists ev. split; [exact Hev|]. split; [|rewrite E1, E2, E3, E4, E5, E6; lia].
  repeat split; try (apply Bp || apply Br || apply Bup || apply Bur || apply Blp || apply Blr).
  - eapply f1_score_bounds; [exact Bp | exact Br | exact Ef].
  - eapply f1_score_bounds; [exact Bp | exact Br | exact Ef].
  - rewrite Epa. apply guarded_bounds. lia.
  - rewrite Epa. apply guarded_bounds. lia.
  - rewrite Eus. apply guarded_bounds. lia.
  - rewrite Eus. apply guarded_bounds. lia.
  - eapply f1_score_bounds; [exact Bup | exact Bur | exact Euf].
  - eapply f1_score_bounds; [exact Bup | exact Bur | exact Euf].
  - rewrite Els. apply guarded_bounds. lia.
  - rewrite Els. apply guarded_bounds. lia.
  - eapply f1_score_bounds; [exact Blp | exact Blr | exact Elf].
  - eapply f1_score_bounds; [exact Blp | exact Blr | exact Elf].
Qed.

Lemma evaluation_rates_in_range_witness :
  exists ev,
    get_parser_evaluation split_predicted split_gold = Ok ev /\
    (is_percentage (precision ev) /\ is_percentage (recall ev) /\
     is_percentage (f1_score ev) /\ is_percentage (pos_acc ev) /\
     is_percentage (uas_score ev) /\ is_percentage (uas_precision ev) /\
     is_percentage (uas_recall ev) /\ is_percentage (uas_f1_score ev) /\
     is_percentage (las_score ev) /\ is_percentage (las_precision ev) /\
     is_percentage (las_recall ev) /\ is_percentage (las_f1_score ev)) /\
    correct_count ev <= predicted_list_len ev /\
    correct_count ev <= gold_list_len ev /\
    pos_match ev <= correct_count ev /\
    uas_match ev <= correct_count ev /\
    las_match ev <= uas_match ev.
Proof.
  apply (evaluation_rates_in_range split_predicted split_gold);
    [reflexivity | discriminate | discriminate].
Defined.

(** C4: for a well-formed input with non-empty lists, the record has
    [uas_score = uas_match / c * 100] and [las_score = las_match / c * 100]
    when the correct segmentation count [c] is positive, and
    [uas_precision], [uas_recall], [las_precision], [las_recall] are the
    match counts over the lengths of the predicted and the gold list, times
    100; the two conventions differ on [split_predicted], [split_gold]. *)
Theorem score_and_precision_denominators (predicted_list gold_list : list word_info) :
  well_formed predicted_list gold_list = true ->
  predicted_list <> [] -> gold_list <> [] ->
  (exists ev,
     get_parser_evaluation predicted_list gold_list = Ok ev /\
     (0 < correct_count ev ->
      uas_score ev = (of_int (uas_match ev) / of_int (correct_count ev) * 100)%Q /\
      las_score ev = (of_int (las_match ev) / of_int (correct_count ev) * 100)%Q) /\
     uas_precision ev
       = (of_int (uas_match ev) / of_int (length predicted_list) * 100)%Q /\
     uas_recall ev = (of_int (uas_match ev) / of_int (length gold_list) * 100)%Q /\
     las_precision ev
       = (of_int (las_match ev) / of_int (length predicted_list) * 100)%Q /\
     las_recall ev = (of_int (las_match ev) / of_int (length gold_list) * 100)%Q) /\
  (exists ev,
     get_parser_evaluation split_predicted split_gold = Ok ev /\
     0 < correct_count ev /\
     ~ (uas_score ev == uas_precision ev)%Q /\
     ~ (las_score ev == las_precision ev)%Q).
Proof.
  intros Hwf Hp Hg. split.
  - destruct (get_parser_evaluation_well_formed _ _ Hwf Hp Hg)
      as (m & c & ev & _ & _ & Hev & Hof).
    destruct Hof as (E1 & E2 & E3 & E4 & E5 & E6 & Ep & Er & Ef & Epa & Eus & Eup & Eur
                     & Euf & Els & Elp & Elr & Elf).
    exists ev. split; [exact Hev|]. rewrite E3, E5, E6.
    split; [|auto].
    intros Hc. apply Nat.ltb_lt in Hc. rewrite Hc in Eus, Els. auto.
  - eexists. split; [vm_compute; reflexivity|].
    cbn. split; [lia|]. split; intros H; vm_compute in H; discriminate H.
Qed.

Lemma score_and_precision_denominators_witness :
  (exists ev,
     get_parser_evaluation partial_predicted partial_gold = Ok ev /\
     (0 < correct_count ev ->
      uas_score ev = (of_int (uas_match ev) / of_int (correct_count ev) * 100)%Q /\
      las_score ev = (of_int (las_match ev) / of_int (correct_count ev) * 100)%Q) /\
     uas_precision ev
       = (of_int (uas_match ev) / of_int (length partial_predicted) * 100)%Q /\
     uas_recall ev = (of_int (uas_match ev) / of_int (length partial_gold) * 100)%Q /\
     las_precision ev
       = (of_int (las_match ev) / of_int (length partial_predicted) * 100)%Q /\
     las_recall ev = (of_int (las_match ev) / of_int (length partial_gold) * 100)%Q) /\
  (exists ev,
     get_parser_evaluation split_predicted split_gold = Ok ev /\
     0 < correct_count ev /\
     ~ (uas_score ev == uas_precision ev)%Q /\
     ~ (las_score ev == las_precision ev)%Q).
Proof.
  apply (score_and_precision_denominators partial_predicted partial_gold);
    [reflexivity | discriminate | discriminate].
Defined.

(** C6: for every pair of sequences with well-formed spans,
    [map_predicted_with_gold_words] returns a map whose entry 0 is 0 and
    whose defined entries are pairwise distinct. *)
Theorem alignment_root_and_injective (predicted_list gold_list : list word_info) :
  spans_ok predicted_list gold_list = true ->
  exists m c,
    map_predicted_with_gold_words predicted_list gold_list = Ok (m, c) /\
    m !! 0 = Some (Some 0) /\
    forall p1 p2 g, m !! p1 = Some (Some g) -> m !! p2 = Some (Some g) -> p1 = p2.
Proof.
  intros Hspans.
  destruct (spans_ok_nonempty _ _ Hspans) as [Hpne Hgne].
  destruct (map_predicted_with_gold_words_spec _ _ Hspans) as (m & c & Hmap & Hal).
  exists m, c. split; [exact Hmap|]. split.
  - apply Hal.
  - intros p1 p2 g. eapply alignment_injective; eassumption.
Qed.

Lemma alignment_root_and_injective_witness :
  exists m c,
    map_predicted_with_gold_words split_predicted split_gold = Ok (m, c) /\
    m !! 0 = Some (Some 0) /\
    forall p1 p2 g, m !! p1 = Some (Some g) -> m !! p2 = Some (Some g) -> p1 = p2.
Proof.
  apply (alignment_root_and_injective split_predicted split_gold). reflexivity.
Defined.

(** C2: for a well-formed pair of sequences, [get_uas_las_match] over the
    alignment map counts exactly the predicted tokens that are
    unlabeled-correct, and those that are labeled-correct.  For a predicted
    token [t] of index [p = i + 1] with [map[p] = g] defined, the gold token
    [gold[g]] exists, and the loop body adds one to the unlabeled count
    exactly when [map[h]], for [h] the head of [t], is defined and equals
    the head of [gold[g]]; it adds one to the labeled count exactly when the
    labels are equal as well; and as [map[0] = 0], a predicted root
    attachment is unlabeled-correct exactly when the head of [gold[g]] is 0. *)
Theorem uas_las_through_alignment (predicted_list gold_list : list word_info) :
  well_formed predicted_list gold_list = true ->
  exists m c,
    map_predicted_with_gold_words predicted_list gold_list = Ok (m, c) /\
    m !! 0 = Some (Some 0) /\
    get_uas_las_match predicted_list gold_list m
    = Ok (count (unlabeled_correct gold_list m) (enumerate predicted_list),
          count (labeled_correct gold_list m) (enumerate predicted_list)) /\
    forall i t g,
      predicted_list !! i = Some t -> m !! (i + 1) = Some (Some g) ->
      exists gold_token,
        gold_list !! (g - 1) = Some gold_token /\
        (forall u l,
           uas_las_body gold_list m (i, t) (u, l)
           = Ok (if unlabeled_correct gold_list m (i, t)
                 then (u + 1, if labeled_correct gold_list m (i, t) then l + 1 else l)
                 else (u, l))) /\
        (unlabeled_correct gold_list m (i, t) = true <->
         exists hg, m !! Z.to_nat (head_idx t) = Some (Some hg) /\
                    Z.of_nat hg = head_idx gold_token) /\
        (labeled_correct gold_list m (i, t) = true <->
         unlabeled_correct gold_list m (i, t) = true /\
         dep_label t = dep_label gold_token) /\
        (head_idx t = 0%Z ->
         (unlabeled_correct gold_list m (i, t) = true <->
          head_idx gold_token = 0%Z)).
Proof.
  intros Hwf.
  destruct (well_formed_spans _ _ Hwf) as (Hspans & Hpne & Hgne & Hheads).
  destruct (map_predicted_with_gold_words_spec _ _ Hspans) as (m & c & Hmap & Hal).
  pose proof (alignment_map_fits _ _ m c Hpne Hgne Hal) as Hfits.
  pose proof (heads_ok_aligned _ m Hheads) as Hah.
  assert (Hroot : m !! 0 = Some (Some 0)) by apply Hal.
  exists m, c. split; [exact Hmap|]. split; [exact Hroot|].
  split; [apply get_uas_las_match_spec; assumption|].
  intros i t g Hit Hg.
  destruct Hfits as [Hlen Hval]. pose proof Hg as Hg'.
  rewrite Nat.add_1_r in Hg'. destruct (Hval _ _ Hg') as (g0 & -> & Hlt).
  destruct (lookup_lt_is_Some_2 gold_list g0 Hlt) as [gt Hgt].
  assert (Hgt' : gold_list !! (S g0 - 1) = Some gt)
    by (cbn [Nat.sub]; rewrite Nat.sub_0_r; exact Hgt).
  exists gt. split; [exact Hgt'|].
  assert (Hun : unlabeled_correct gold_list m (i, t)
                = match m !! Z.to_nat (head_idx t) with
                  | Some (Some hg) => (Z.of_nat hg =? head_idx gt)%Z
                  | _ => false
                  end).
  { unfold unlabeled_correct. cbn [fst snd]. rewrite Hg, Hgt'. reflexivity. }
  assert (Hlab : label_correct gold_list m (i, t)
                 = String.eqb (dep_label t) (dep_label gt)).
  { unfold label_correct. cbn [fst snd]. rewrite Hg, Hgt'. reflexivity. }
  split; [|split; [|split]].
  - intros u l.
    rewrite (uas_las_body_spec predicted_list gold_list m i t u l
               (conj Hlen Hval) Hah Hit).
    unfold labeled_correct.
    destruct (unlabeled_correct gold_list m (i, t)); reflexivity.
  - rewrite Hun. split.
    + destruct (m !! Z.to_nat (head_idx t)) as [[hg|]|]; try discriminate.
      intros H. apply Z.eqb_eq in H. eauto.
    + intros (hg & -> & H). apply Z.eqb_eq. exact H.
  - unfold labeled_correct. rewrite andb_true_iff, Hlab, String.eqb_eq. reflexivity.
  - intros Hh. rewrite Hun, Hh. change (Z.to_nat 0) with 0. rewrite Hroot.
    rewrite Z.eqb_eq. change (Z.of_nat 0) with 0%Z. split; intros H; symmetry; exact H.
Qed.

Lemma uas_las_through_alignment_witness :
  exists m c,
    map_predicted_with_gold_words partial_predicted partial_gold = Ok (m, c) /\
    m !! 0 = Some (Some 0) /\
    get_uas_las_match partial_predicted partial_gold m
    = Ok (count (unlabeled_correct partial_gold m) (enumerate partial_predicted),
          count (labeled_correct partial_gold m) (enumerate partial_predicted)) /\
    forall i t g,
      partial_predicted !! i = Some t -> m !! (i + 1) = Some (Some g) ->
      exists gold_token,
        partial_gold !! (g - 1) = Some gold_token /\
        (forall u l,
           uas_las_body partial_gold m (i, t) (u, l)
           = Ok (if unlabeled_correct partial_gold m (i, t)
                 then (u + 1, if labeled_correct partial_gold m (i, t) then l + 1 else l)
                 else (u, l))) /\
        (unlabeled_correct partial_gold m (i, t) = true <->
         exists hg, m !! Z.to_nat (head_idx t) = Some (Some hg) /\
                    Z.of_nat hg = head_idx gold_token) /\
        (labeled_correct partial_gold m (i, t) = true <->
         unlabeled_correct partial_gold m (i, t) = true /\
         dep_label t = dep_label gold_token) /\
        (head_idx t = 0%Z ->
         (unlabeled_correct partial_gold m (i, t) = true <->
          head_idx gold_token = 0%Z)).
Proof.
  apply (uas_las_through_alignment partial_predicted partial_gold). reflexivity.
Defined.

Lemma align_body_count (pm gm : list span_entry) (i : nat)
  (m m' : list (option nat)) (c c' : nat) :
  align_body pm gm i (m, c) = Ok (m', c') -> (m' = m /\ c' = c) \/ c' = c + 1.
Proof.
  unfold align_body. intros H.
  apply bind_Ok in H as (pe & _ & H).
  destruct (ent_end pe) as [e|]; [|injection H as <- <-; auto].
  apply bind_Ok in H as (ge & _ & H).
  destruct (ent_end ge) as [e'|]; [|injection H as <- <-; auto].
  destruct (e' =? e); [|injection H as <- <-; auto].
  destruct (ent_word_idx pe); [|discriminate].
  destruct (ent_word_idx ge); [|discriminate].
  apply bind_Ok in H as (m1 & _ & H). injection H as <- <-. auto.
Qed.

(** A count of zero leaves the map as it was initialised. *)
Lemma map_predicted_with_gold_words_zero (predicted_list gold_list : list word_info)
  (m : list (option nat)) :
  map_predicted_with_gold_words predicted_list gold_list = Ok (m, 0) ->
  m = <[0 := Some 0]> (replicate (length predicted_list + 1) None).
Proof.
  unfold map_predicted_with_gold_words. intros H.
  apply bind_Ok in H as (pm & _ & H). apply bind_Ok in H as (gm & _ & H).
  apply bind_Ok in H as (m0 & Hm0 & H).
  unfold setitem in Hm0. destruct (decide _) in Hm0; [|discriminate].
  injection Hm0 as <-.
  set (m0 := <[0 := Some 0]> (replicate (length predicted_list + 1) None)) in *.
  assert (Hinv : snd (m, 0) = 0 -> fst (m, 0) = m0).
  { eapply (for_each_inv (fun s => snd s = 0 -> fst s = m0)); [| |exact H].
    - intros i [m1 c1] [m2 c2] _ Hs Hstep Hz. cbn [fst snd] in *.
      destruct (align_body_count pm gm i m1 m2 c1 c2 Hstep) as [[Hm Hc]|Hc];
        [subst; auto | lia].
    - reflexivity. }
  exact (Hinv eq_refl).
Qed.

Lemma initial_map_fits (n_pred n_gold : nat) :
  map_fits n_pred n_gold (<[0 := Some 0]> (replicate (n_pred + 1) None)).
Proof.
  split; [rewrite length_insert, length_replicate; reflexivity|].
  intros p v H. rewrite list_lookup_insert_ne in H by lia.
  apply lookup_replicate in H as [? _]. discriminate.
Qed.

Lemma initial_map_unaligned (n_pred : nat) (it : nat * word_info) :
  is_aligned (<[0 := Some 0]> (replicate (n_pred + 1) None)) it = false.
Proof.
  unfold is_aligned. rewrite list_lookup_insert_ne by lia.
  destruct (replicate (n_pred + 1) None !! (fst it + 1)) as [[v|]|] eqn:E;
    [|reflexivity|reflexivity].
  apply lookup_replicate in E as [? _]. discriminate.
Qed.

Lemma get_f1_score_zero (p r : Q) : (p + r == 0)%Q -> get_f1_score p r = Ok 0%Q.
Proof.
  intros H. unfold get_f1_score. destruct (Qpositive (p + r)) eqn:E; [|reflexivity].
  apply Qpositive_spec in E. lra.
Qed.

(** C5: when the lists are non-empty and the correct segmentation count is
    zero, [get_parser_evaluation] returns a record with
    [pos_acc = uas_score = las_score = 0] (and [f1_score = 0]); and
    [get_f1_score] is 0 whenever [precision + recall] is 0. *)
Theorem zero_segmentation_guard (predicted_list gold_list : list word_info)
  (m : list (option nat)) :
  predicted_list <> [] -> gold_list <> [] ->
  map_predicted_with_gold_words predicted_list gold_list = Ok (m, 0) ->
  (exists ev,
     get_parser_evaluation predicted_list gold_list = Ok ev /\
     correct_count ev = 0 /\
     pos_acc ev = 0%Q /\ uas_score ev = 0%Q /\ las_score ev = 0%Q /\
     f1_score ev = 0%Q) /\
  (forall p r, (p + r == 0)%Q -> get_f1_score p r = Ok 0%Q).
Proof.
  intros Hp Hg Hmap. split; [|exact get_f1_score_zero].
  pose proof (map_predicted_with_gold_words_zero _ _ _ Hmap) as Hm.
  assert (Hfits : map_fits (length predicted_list) (length gold_list) m)
    by (rewrite Hm; apply initial_map_fits).
  assert (Hheads : aligned_heads_ok predicted_list m).
  { intros i t _ Hal. rewrite Hm, initial_map_unaligned in Hal. discriminate. }
  destruct (get_parser_evaluation_ok _ _ m 0 _ _ _ Hmap
              (get_pos_match_spec _ _ m Hfits)
              (get_uas_las_match_spec _ _ m Hfits Hheads)
              (nonempty_length _ Hp) (nonempty_length _ Hg)) as (ev & Hev & Hof).
  destruct Hof as (E1 & E2 & E3 & E4 & E5 & E6 & Ep & Er & Ef & Epa & Eus & Eup & Eur
                   & Euf & Els & Elp & Elr & Elf).
  exists ev. cbn [Nat.ltb Nat.leb] in Epa, Eus, Els.
  repeat split; try assumption.
  rewrite get_f1_score_zero in Ef; [congruence|].
  rewrite Ep, Er. unfold of_int. cbn [Z.of_nat inject_Z].
  unfold Qdiv. rewrite !Qmult_0_l. reflexivity.
Qed.

Lemma zero_segmentation_guard_witness :
  (exists ev,
     get_parser_evaluation crossing_predicted crossing_gold = Ok ev /\
     correct_count ev = 0 /\
     pos_acc ev = 0%Q /\ uas_score ev = 0%Q /\ las_score ev = 0%Q /\
     f1_score ev = 0%Q) /\
  (forall p r, (p + r == 0)%Q -> get_f1_score p r = Ok 0%Q).
Proof.
  apply (zero_segmentation_guard crossing_predicted crossing_gold
           [Some 0; None; None]); [discriminate | discriminate | reflexivity].
Defined.

(** C1: with an empty predicted list and a gold list of non-empty tokens,
    [get_parser_evaluation] does not return a record with
    [precision = recall = 0]: the alignment gives the count 0, and
    [correct_count / len(predicted_list)] divides by zero. *)
Theorem empty_predicted_raises (gold_list : list word_info) :
  nonempty_words gold_list = true ->
  map_predicted_with_gold_words [] gold_list = Ok ([Some 0], 0) /\
  get_parser_evaluation [] gold_list = Raise ZeroDivisionError.
Proof.
  intros Hg.
  assert (Hspans : spans_ok [] gold_list = true).
  { unfold spans_ok. rewrite Hg. reflexivity. }
  destruct (map_predicted_with_gold_words_spec _ _ Hspans) as (m & c & Hmap & Hal).
  destruct Hal as (Hlen & Hroot & Hc & _). cbn in Hc, Hlen. subst c.
  assert (m = [Some 0]) as ->.
  { destruct m as [|x [|y m]]; cbn in Hlen, Hroot; try discriminate. congruence. }
  split; [exact Hmap|].
  unfold get_parser_evaluation. rewrite Hmap. reflexivity.
Qed.

Lemma empty_predicted_raises_witness :
  map_predicted_with_gold_words [] partial_gold = Ok ([Some 0], 0) /\
  get_parser_evaluation [] partial_gold = Raise ZeroDivisionError.
Proof. apply (empty_predicted_raises partial_gold). reflexivity. Defined.

(** ** The Corpus Aggregator *)

Lemma sum_Q_from (xs : list Q) (a : Q) :
  (fold_left Qplus xs a == a + fold_right Qplus 0 xs)%Q.
Proof.
  revert a. induction xs as [|x xs IH]; intros a; cbn [fold_left fold_right].
  - ring.
  - rewrite IH. ring.
Qed.

Lemma sum_Q_mean (xs : list Q) :
  (sum_Q xs / of_int (length xs) == mean xs)%Q.
Proof.
  unfold mean, sum_Q. rewrite sum_Q_from. apply Qdiv_comp; [ring | reflexivity].
Qed.

Lemma sum_nat_list_sum (xs : list nat) : sum_nat xs = list_sum xs.
Proof.
  induction xs as [|x xs IH]; [reflexivity|].
  rewrite sum_nat_cons, IH. reflexivity.
Qed.

Lemma rate_mean_ok (field : evaluation -> Q) (l : list evaluation) :
  l <> [] ->
  exists q, rate_mean field l (length l) = Ok q /\ (q == mean (map field l))%Q.
Proof.
  intros Hl. unfold rate_mean. rewrite truediv_ok.
  - eexists. split; [reflexivity|].
    rewrite <- sum_Q_mean, length_map. reflexivity.
  - pose proof (of_int_pos _ (nonempty_length _ Hl)). lra.
Qed.

(** C9: on a non-empty list of records, [get_epoch_evaluation] returns the
    arithmetic mean of each rate field and the sum of each count field; for
    three sentences with correct counts 2, 0, 3 out of gold lengths 2, 2, 3
    the epoch record has [correct_words = 5], [all_gold_words = 7] and
    [word_recall = 200/3], which is not the pooled rate [5/7 * 100]. *)
Theorem epoch_mean_and_sums (evaluation_list : list evaluation) :
  evaluation_list <> [] ->
  (exists ep,
     get_epoch_evaluation evaluation_list = Ok ep /\
     (word_precision ep == mean (map precision evaluation_list))%Q /\
     (word_recall ep == mean (map recall evaluation_list))%Q /\
     (word_f1_score ep == mean (map f1_score evaluation_list))%Q /\
     (pos_accuracy ep == mean (map pos_acc evaluation_list))%Q /\
     (uas_accuracy ep == mean (map uas_score evaluation_list))%Q /\
     (las_accuracy ep == mean (map las_score evaluation_list))%Q /\
     (epoch_uas_f1_score ep == mean (map uas_f1_score evaluation_list))%Q /\
     (epoch_las_f1_score ep == mean (map las_f1_score evaluation_list))%Q /\
     correct_words ep = list_sum (map correct_count evaluation_list) /\
     all_gold_words ep = list_sum (map gold_list_len evaluation_list) /\
     all_predicted_words ep = list_sum (map predicted_list_len evaluation_list) /\
     correct_pos ep = list_sum (map pos_match evaluation_list) /\
     correct_uas ep = list_sum (map uas_match evaluation_list) /\
     correct_las ep = list_sum (map las_match evaluation_list)) /\
  (exists e1 e2 e3 ep,
     get_parser_evaluation partial_predicted partial_gold = Ok e1 /\
     get_parser_evaluation crossing_predicted crossing_gold = Ok e2 /\
     get_parser_evaluation exact_sentence exact_sentence = Ok e3 /\
     map correct_count [e1; e2; e3] = [2; 0; 3] /\
     map gold_list_len [e1; e2; e3] = [2; 2; 3] /\
     Forall2 Qeq (map recall [e1; e2; e3]) [100; 0; 100]%Q /\
     get_epoch_evaluation [e1; e2; e3] = Ok ep /\
     correct_words ep = 5 /\ all_gold_words ep = 7 /\
     (word_recall ep == 200 # 3)%Q /\
     ~ (word_recall ep == of_int 5 / of_int 7 * 100)%Q).
Proof.
  intros Hl. split.
  - unfold get_epoch_evaluation.
    destruct (rate_mean_ok precision _ Hl) as (q1 & -> & H1).
    destruct (rate_mean_ok recall _ Hl) as (q2 & -> & H2).
    destruct (rate_mean_ok f1_score _ Hl) as (q3 & -> & H3).
    destruct (rate_mean_ok pos_acc _ Hl) as (q4 & -> & H4).
    destruct (rate_mean_ok uas_score _ Hl) as (q5 & -> & H5).
    destruct (rate_mean_ok las_score _ Hl) as (q6 & -> & H6).
    destruct (rate_mean_ok uas_f1_score _ Hl) as (q7 & -> & H7).
    destruct (rate_mean_ok las_f1_score _ Hl) as (q8 & -> & H8).
    cbn [bind]. eexists. split; [reflexivity|].
    cbn [word_precision word_recall word_f1_score pos_accuracy uas_accuracy
         las_accuracy epoch_uas_f1_score epoch_las_f1_score correct_words
         all_gold_words all_predicted_words correct_pos correct_uas correct_las].
    rewrite !sum_nat_list_sum. repeat split; assumption.
  - do 4 eexists.
    split; [vm_compute; reflexivity|]. split; [vm_compute; reflexivity|].
    split; [vm_compute; reflexivity|]. split; [reflexivity|]. split; [reflexivity|].
    split; [repeat constructor|]. split; [vm_compute; reflexivity|].
    split; [reflexivity|]. split; [reflexivity|].
    split; [reflexivity|]. intros H. vm_compute in H. discriminate H.
Qed.

Lemma epoch_mean_and_sums_witness :
  exists e1 e2 e3,
    get_parser_evaluation partial_predicted partial_gold = Ok e1 /\
    get_parser_evaluation crossing_predicted crossing_gold = Ok e2 /\
    get_parser_evaluation exact_sentence exact_sentence = Ok e3 /\
    exists ep,
      get_epoch_evaluation [e1; e2; e3] = Ok ep /\
      (word_recall ep == mean (map recall [e1; e2; e3]))%Q /\
      correct_words ep = list_sum (map correct_count [e1; e2; e3]).
Proof.
  do 3 eexists.
  split; [vm_compute; reflexivity|]. split; [vm_compute; reflexivity|].
  split; [vm_compute; reflexivity|].
  match goal with
  | |- exists ep, get_epoch_evaluation ?l = _ /\ _ =>
      destruct (epoch_mean_and_sums l) as [(ep & Hep & _ & Hr & _ & _ & _ & _ & _ & _
                                            & Hc & _) _]; [discriminate|]
  end.
  exists ep. split; [exact Hep|]. split; [exact Hr | exact Hc].
Defined.

(** C10: on the empty list [get_epoch_evaluation] divides the (empty) sum
    of the first rate by [n_eval = 0] and raises; the sentence-level guards
    have no counterpart here: with a zero denominator [percent_guarded] and
    [get_f1_score] return 0. *)
Theorem epoch_evaluation_empty_raises :
  get_epoch_evaluation [] = Raise ZeroDivisionError /\
  rate_mean precision [] (length (@nil evaluation)) = Raise ZeroDivisionError /\
  (forall a, percent_guarded a 0 = Ok 0%Q) /\
  get_f1_score 0 0 = Ok 0%Q.
Proof. repeat split. Qed.

(** ** Streams of different lengths *)

(** Past the end of the gold stream an iteration skips the offset or, at a
    predicted token's start, fails to read the gold table. *)
Lemma align_body_past_gold (pm gm : list span_entry) (i : nat)
  (s : list (option nat) * nat) :
  i < length pm -> length gm <= i ->
  align_body pm gm i s = if is_start pm i then Raise IndexError else Ok s.
Proof.
  intros Hi Hg. destruct s as [m c]. unfold align_body, is_start, getitem.
  destruct (lookup_lt_is_Some_2 pm i Hi) as [[[e|] w] ->]; cbn [bind ent_end];
    [|reflexivity].
  rewrite (proj2 (lookup_ge_None gm i) Hg). reflexivity.
Qed.

Lemma align_tail_raises (pm gm : list span_entry) (l : list nat)
  (s : list (option nat) * nat) :
  (forall i, i ∈ l -> i < length pm /\ length gm <= i) ->
  (exists i, i ∈ l /\ is_start pm i = true) ->
  for_each l (align_body pm gm) s = Raise IndexError.
Proof.
  induction l as [|x l IH]; intros Hall (i & Hi & Hs).
  - inversion Hi.
  - cbn [for_each]. destruct (Hall x ltac:(left)) as [Hx1 Hx2].
    rewrite (align_body_past_gold pm gm x s Hx1 Hx2).
    destruct (is_start pm x) eqn:Ex; [reflexivity|]. cbn [bind].
    apply IH.
    + intros y Hy. apply Hall. right. exact Hy.
    + exists i. split; [|exact Hs].
      apply elem_of_cons in Hi as [->|Hi]; [congruence | exact Hi].
Qed.

Lemma forallb_false_elem {A : Type} (f : A -> bool) (l : list A) :
  forallb f l = false -> exists x, In x l /\ f x = false.
Proof.
  induction l as [|x l IH]; cbn [forallb]; [discriminate|].
  destruct (f x) eqn:E.
  - intros H. destruct (IH H) as (y & Hy & Hf). exists y. split; [right|]; assumption.
  - intros _. exists x. split; [left; reflexivity | exact E].
Qed.

Lemma starts_within_false (predicted_list gold_list : list word_info) :
  starts_within predicted_list gold_list = false ->
  exists j, j < length predicted_list /\
            stream_len gold_list <= start_of (lens predicted_list) j.
Proof.
  unfold starts_within, range. intros H.
  apply forallb_false_elem in H as (j & Hj & Hlt).
  apply in_seq in Hj. apply Nat.ltb_ge in Hlt.
  exists j. split; [lia | exact Hlt].
Qed.

(** A predicted token that starts at or after the end of the gold stream
    makes the alignment fail. *)
Lemma map_predicted_with_gold_words_raises (predicted_list gold_list : list word_info) :
  nonempty_words predicted_list = true -> nonempty_words gold_list = true ->
  starts_within predicted_list gold_list = false ->
  stream_len gold_list < stream_len predicted_list /\
  map_predicted_with_gold_words predicted_list gold_list = Raise IndexError.
Proof.
  intros Hp Hg Hsw.
  destruct (starts_within_false _ _ Hsw) as (j0 & Hj0 & Hge).
  pose proof (nonempty_words_lens _ Hp) as Hp'.
  pose proof (nonempty_words_lens _ Hg) as Hg'.
  destruct (lookup_lt_is_Some_2 (lens predicted_list) j0) as [n Hn];
    [rewrite length_lens; exact Hj0|].
  pose proof (start_of_lt _ Hp' j0 n Hn) as Hend.
  assert (Hn0 : 0 < n) by (eapply (proj1 (Forall_lookup _ _) Hp'); exact Hn).
  unfold stream_len in *. fold (lens predicted_list) (lens gold_list) in *.
  split; [lia|].
  unfold map_predicted_with_gold_words.
  rewrite (generate_start_end_map_layout _ (nonempty_words_Forall _ Hp)).
  rewrite (generate_start_end_map_layout _ (nonempty_words_Forall _ Hg)).
  cbn [bind]. unfold setitem.
  rewrite decide_True by (rewrite length_replicate; lia). cbn [bind].
  fold (lens predicted_list) (lens gold_list).
  rewrite length_layout by exact Hp'. unfold range.
  replace (sum_nat (lens predicted_list))
    with (sum_nat (lens gold_list)
          + (sum_nat (lens predicted_list) - sum_nat (lens gold_list))) at 1 by lia.
  rewrite seq_app, for_each_app.
  destruct (align_loop _ _ Hp' Hg' (sum_nat (lens gold_list)) ltac:(lia)
              (fun k _ Hlt => Hlt)) as (m & c & Hrun & _).
  rewrite length_lens in Hrun. rewrite Hrun. cbn [bind].
  apply align_tail_raises.
  - intros i Hi. apply elem_of_seq in Hi.
    rewrite !length_layout by assumption. lia.
  - exists (start_of (lens predicted_list) j0). split.
    + apply elem_of_seq. lia.
    + unfold is_start. rewrite (layout_lookup_start _ Hp' 0 0 j0 n Hn). reflexivity.
Qed.

(** C3, as stated, fails: the streams have lengths 3 and 2 and the function
    raises. *)
Lemma unequal_streams_can_raise :
  stream_len longer_predicted <> stream_len shorter_gold /\
  map_predicted_with_gold_words longer_predicted shorter_gold = Raise IndexError /\
  ~ exists r, map_predicted_with_gold_words longer_predicted shorter_gold = Ok r.
Proof.
  split; [vm_compute; lia|]. split; [reflexivity|].
  intros [r H]. vm_compute in H. discriminate H.
Qed.

(** C3, amended: for sequences of non-empty tokens,
    [map_predicted_with_gold_words] returns a map and a count when every
    predicted token starts before the end of the gold character stream, as
    it does whenever the predicted stream is the shorter one; a gold token
    that starts at or beyond the end of the predicted stream is never
    matched.  When a predicted token starts at or beyond the end of the gold
    stream, the predicted stream is the longer one and the function raises
    [IndexError]. *)
Theorem unequal_streams_alignment (predicted_list gold_list : list word_info) :
  nonempty_words predicted_list = true -> nonempty_words gold_list = true ->
  (stream_len predicted_list < stream_len gold_list ->
   starts_within predicted_list gold_list = true) /\
  (starts_within predicted_list gold_list = true ->
   exists m c,
     map_predicted_with_gold_words predicted_list gold_list = Ok (m, c) /\
     length m = length predicted_list + 1 /\
     c <= length predicted_list /\
     forall p g, m !! p = Some (Some (S g)) ->
                 g < length gold_list /\
                 start_of (lens gold_list) g < stream_len predicted_list) /\
  (starts_within predicted_list gold_list = false ->
   stream_len gold_list < stream_len predicted_list /\
   map_predicted_with_gold_words predicted_list gold_list = Raise IndexError).
Proof.
  intros Hp Hg. split; [|split].
  - intros Hlt. apply shorter_starts_within; [exact Hp | lia].
  - intros Hsw.
    assert (Hspans : spans_ok predicted_list gold_list = true)
      by (unfold spans_ok; rewrite Hp, Hg, Hsw; reflexivity).
    destruct (map_predicted_with_gold_words_spec _ _ Hspans) as (m & c & Hmap & Hal).
    exists m, c. split; [exact Hmap|]. split; [apply Hal|].
    split; [eapply alignment_count_le_predicted; eassumption|].
    intros p g Hpg. destruct Hal as (_ & Hroot & _ & Hent).
    destruct p as [|p]; [rewrite Hroot in Hpg; discriminate|].
    apply Hent in Hpg as (i & g' & Hi & Hm & _ & Hgi & [= <-]).
    pose proof (nonempty_words_lens _ Hg) as Hg'.
    destruct (table_word_at _ _ _ Hg' Hgi) as (-> & n & Hn & _).
    split; [|exact Hi].
    apply lookup_lt_Some in Hn. rewrite length_lens in Hn. exact Hn.
  - apply map_predicted_with_gold_words_raises; assumption.
Qed.

Lemma unequal_streams_alignment_witness :
  (stream_len shorter_predicted < stream_len longer_gold ->
   starts_within shorter_predicted longer_gold = true) /\
  (starts_within shorter_predicted longer_gold = true ->
   exists m c,
     map_predicted_with_gold_words shorter_predicted longer_gold = Ok (m, c) /\
     length m = length shorter_predicted + 1 /\
     c <= length shorter_predicted /\
     forall p g, m !! p = Some (Some (S g)) ->
                 g < length longer_gold /\
                 start_of (lens longer_gold) g < stream_len shorter_predicted) /\
  (starts_within shorter_predicted longer_gold = false ->
   stream_len longer_gold < stream_len shorter_predicted /\
   map_predicted_with_gold_words shorter_predicted longer_gold = Raise IndexError).
Proof.
  apply (unequal_streams_alignment shorter_predicted longer_gold); reflexivity.
Defined.

(** ** Identical spans *)

Lemma count_all {A : Type} (P : A -> bool) (l : list A) :
  (forall x, x ∈ l -> P x = true) -> count P l = length l.
Proof.
  unfold count. induction l as [|x l IH]; intros H; [reflexivity|].
  rewrite filter_cons_True by (apply H; left). cbn [length].
  rewrite IH; [reflexivity|]. intros y Hy. apply H. right. exact Hy.
Qed.

Lemma count_ext {A : Type} (P Q : A -> bool) (l : list A) :
  (forall x, x ∈ l -> P x = Q x) -> count P l = count Q l.
Proof.
  unfold count. induction l as [|x l IH]; intros H; [reflexivity|].
  assert (IH' : length (filter (fun y => P y = true) l)
                = length (filter (fun y => Q y = true) l))
    by (apply IH; intros y Hy; apply H; right; exact Hy).
  rewrite !filter_cons, (H x) by left.
  destruct (decide (Q x = true)); cbn [length]; rewrite IH'; reflexivity.
Qed.

Lemma lens_nonempty_words (l : list word_info) :
  Forall (fun n => 0 < n) (lens l) -> nonempty_words l = true.
Proof.
  unfold lens, nonempty_words. induction l as [|t l IH]; cbn [map forallb];
    [reflexivity|].
  intros H. inversion H as [|? ? H1 H2]; subst.
  rewrite IH by exact H2. apply Nat.ltb_lt in H1. rewrite H1. reflexivity.
Qed.

(** With identical spans every predicted index is mapped to itself. *)
Lemma identical_spans_identity (predicted_list gold_list : list word_info)
  (m : list (option nat)) (c : nat) :
  nonempty_words predicted_list = true ->
  lens predicted_list = lens gold_list ->
  alignment_of predicted_list gold_list m c ->
  forall q, q <= length predicted_list -> m !! q = Some (Some q).
Proof.
  intros Hp Hlens (_ & Hroot & _ & Hent) q Hq.
  destruct q as [|p]; [exact Hroot|]. apply Hent.
  pose proof (nonempty_words_lens _ Hp) as Hp'.
  destruct (lookup_lt_is_Some_2 (lens predicted_list) p) as [n Hn];
    [rewrite length_lens; lia|].
  pose proof (layout_lookup_start _ Hp' 0 0 p n Hn) as Hs. cbn [Nat.add] in Hs.
  pose proof (start_of_lt _ Hp' p n Hn) as Hend.
  assert (Hn0 : 0 < n) by (eapply (proj1 (Forall_lookup _ _) Hp'); exact Hn).
  exists (start_of (lens predicted_list) p), p. rewrite <- Hlens.
  unfold matched, word_at. rewrite Hs. cbn [ent_word_idx].
  rewrite Nat.eqb_refl. unfold stream_len. fold (lens predicted_list).
  repeat split. lia.
Qed.

Lemma percent_full (n : nat) : 0 < n -> (of_int n / of_int n * 100 == 100)%Q.
Proof.
  intros Hn. pose proof (of_int_pos n Hn) as H.
  unfold Qdiv. rewrite Qmult_inv_r by lra. reflexivity.
Qed.

Lemma f1_score_full (p r f : Q) :
  (p == 100)%Q -> (r == 100)%Q -> get_f1_score p r = Ok f -> (f == 100)%Q.
Proof.
  intros Hp Hr Hf. destruct (get_f1_score_total p r) as (q & Hq & ->).
  rewrite Hq in Hf. injection Hf as <-.
  assert (E : Qpositive (p + r) = true) by (apply Qpositive_spec; lra).
  rewrite E, Hp, Hr. reflexivity.
Qed.

(** C8: for non-empty sequences of non-empty tokens with the same spans (and
    predicted heads that are ROOT or tokens of the sequence),
    [get_parser_evaluation] returns a record with
    [precision = recall = f1_score = 100], and its [uas_score] and
    [las_score] are the share of the tokens whose predicted head (and, for
    LAS, label) is that of the gold token at the same position, times 100. *)
Theorem identical_spans_evaluation (predicted_list gold_list : list word_info) :
  predicted_list <> [] ->
  nonempty_words predicted_list = true ->
  heads_ok predicted_list = true ->
  lens predicted_list = lens gold_list ->
  exists ev,
    get_parser_evaluation predicted_list gold_list = Ok ev /\
    correct_count ev = length predicted_list /\
    (precision ev == 100)%Q /\ (recall ev == 100)%Q /\ (f1_score ev == 100)%Q /\
    uas_match ev = count (same_head gold_list) (enumerate predicted_list) /\
    las_match ev = count (same_head_and_label gold_list) (enumerate predicted_list) /\
    uas_score ev
    = (of_int (count (same_head gold_list) (enumerate predicted_list))
       / of_int (length predicted_list) * 100)%Q /\
    las_score ev
    = (of_int (count (same_head_and_label gold_list) (enumerate predicted_list))
       / of_int (length predicted_list) * 100)%Q.
Proof.
  intros Hne Hp Hheads Hlens.
  pose proof (nonempty_words_lens _ Hp) as Hp'.
  assert (Hg : nonempty_words gold_list = true)
    by (apply lens_nonempty_words; rewrite <- Hlens; exact Hp').
  assert (Hlen : length gold_list = length predicted_list)
    by (rewrite <- (length_lens gold_list), <- Hlens; apply length_lens).
  assert (Hgne : gold_list <> [])
    by (intros ->; destruct predicted_list; [congruence | discriminate]).
  assert (Hsw : starts_within predicted_list gold_list = true).
  { apply shorter_starts_within; [exact Hp|]. unfold stream_len.
    fold (lens predicted_list) (lens gold_list). rewrite Hlens. reflexivity. }
  assert (Hwf : well_formed predicted_list gold_list = true)
    by (unfold well_formed, spans_ok; rewrite Hp, Hg, Hsw, Hheads; reflexivity).
  destruct (get_parser_evaluation_well_formed _ _ Hwf Hne Hgne)
    as (m & c & ev & Hmap & Hal & Hev & Hof).
  pose proof (identical_spans_identity _ _ m c Hp Hlens Hal) as Hid.
  pose proof (nonempty_length _ Hne) as Hn.
  (* every predicted token is aligned, so the count is the length *)
  assert (Hc : c = length predicted_list).
  { pose proof (alignment_count_le_predicted _ _ m c Hp Hg Hal) as Hle.
    pose proof (alignment_aligned_le_count _ _ m c Hp Hal) as Hge.
    rewrite count_all, length_enumerate in Hge; [lia|].
    intros [i t] Hit. apply elem_of_enumerate, lookup_lt_Some in Hit.
    unfold is_aligned. cbn [fst]. rewrite Hid by lia. reflexivity. }
  (* the scorer's tests are the plain comparisons *)
  assert (Hitem : forall i t, (i, t) ∈ enumerate predicted_list ->
            unlabeled_correct gold_list m (i, t) = same_head gold_list (i, t) /\
            labeled_correct gold_list m (i, t) = same_head_and_label gold_list (i, t)).
  { intros i t Hit. apply elem_of_enumerate in Hit.
    pose proof (heads_ok_spec _ _ _ Hheads Hit) as Hh.
    apply lookup_lt_Some in Hit.
    unfold labeled_correct, unlabeled_correct, label_correct, same_head,
      same_head_and_label. cbn [fst snd].
    rewrite (Hid (i + 1)) by lia. rewrite Nat.add_sub.
    rewrite (Hid (Z.to_nat (head_idx t))) by lia.
    rewrite Z2Nat.id by lia.
    destruct (gold_list !! i) as [gt|]; split; reflexivity. }
  destruct Hof as (E1 & E2 & E3 & E4 & E5 & E6 & Ep & Er & Ef & Epa & Eus & Eup & Eur
                   & Euf & Els & Elp & Elr & Elf).
  rewrite (count_ext _ (same_head gold_list)) in E5, Eus
    by (intros [i t] Hit; apply (Hitem i t Hit)).
  rewrite (count_ext _ (same_head_and_label gold_list)) in E6, Els
    by (intros [i t] Hit; apply (Hitem i t Hit)).
  rewrite Hc in E3, Ep, Er, Eus, Els. rewrite Hlen in Er.
  rewrite (proj2 (Nat.ltb_lt _ _) Hn) in Eus, Els.
  assert (Bp : (precision ev == 100)%Q) by (rewrite Ep; apply percent_full, Hn).
  assert (Br : (recall ev == 100)%Q) by (rewrite Er; apply percent_full, Hn).
  exists ev.
  split; [exact Hev|]. split; [exact E3|]. split; [exact Bp|]. split; [exact Br|].
  split; [exact (f1_score_full _ _ _ Bp Br Ef)|].
  split; [exact E5|]. split; [exact E6|]. split; [exact Eus | exact Els].
Qed.

Lemma identical_spans_evaluation_witness :
  exists ev,
    get_parser_evaluation partial_predicted partial_gold = Ok ev /\
    correct_count ev = length partial_predicted /\
    (precision ev == 100)%Q /\ (recall ev == 100)%Q /\ (f1_score ev == 100)%Q /\
    uas_match ev = count (same_head partial_gold) (enumerate partial_predicted) /\
    las_match ev = count (same_head_and_label partial_gold) (enumerate partial_predicted) /\
    uas_score ev
    = (of_int (count (same_head partial_gold) (enumerate partial_predicted))
       / of_int (length partial_predicted) * 100)%Q /\
    las_score ev
    = (of_int (count (same_head_and_label partial_gold) (enumerate partial_predicted))
       / of_int (length partial_predicted) * 100)%Q.
Proof.
  apply (identical_spans_evaluation partial_predicted partial_gold);
    [discriminate | reflexivity | reflexivity | reflexivity].
Defined.

(** * Further properties of the code *)

(** ** generate_start_end_map *)

Lemma set_end_length (dm dm' : list span_entry) (i v : nat) :
  set_end dm i v = Ok dm' -> length dm' = length dm.
Proof.
  unfold set_end. intros H. apply bind_Ok in H as (e & _ & H).
  injection H as <-. apply length_insert.
Qed.

Lemma set_word_idx_length (dm dm' : list span_entry) (i v : nat) :
  set_word_idx dm i v = Ok dm' -> length dm' = length dm.
Proof.
  unfold set_word_idx. intros H. apply bind_Ok in H as (e & _ & H).
  injection H as <-. apply length_insert.
Qed.

Lemma index_body_in_range (dm : list span_entry) (off k : nat) (w : string) :
  off < length dm ->
  exists dm', index_body (k, w) (dm, off) = Ok (dm', off + String.length w) /\
              length dm' = length dm.
Proof.
  intros Hlt. unfold index_body, set_end, set_word_idx.
  destruct (lookup_lt_is_Some_2 dm off Hlt) as [e He].
  rewrite (getitem_Some _ _ _ He). cbn [bind].
  unfold getitem. rewrite list_lookup_insert_eq by exact Hlt. cbn [bind].
  eexists. split; [reflexivity|]. rewrite !length_insert. reflexivity.
Qed.

Lemma index_body_out_of_range (dm : list span_entry) (off k : nat) (w : string) :
  length dm <= off -> index_body (k, w) (dm, off) = Raise IndexError.
Proof.
  intros Hge. unfold index_body, set_end, getitem.
  rewrite (proj2 (lookup_ge_None dm off) Hge). reflexivity.
Qed.

Lemma sum_nat_zero (xs : list nat) (x : nat) :
  sum_nat xs = 0 -> x ∈ xs -> x = 0.
Proof.
  induction xs as [|y xs IH]; intros Hs Hx; [inversion Hx|].
  rewrite sum_nat_cons in Hs. apply elem_of_cons in Hx as [->|Hx]; [lia|].
  apply IH; [lia | exact Hx].
Qed.

(** The loop of the indexer over a table of exactly the stream's length: it
    fails when the last word is empty and returns otherwise. *)
Lemma index_loop_outcome (ws : list string) :
  forall (k off : nat) (dm : list span_entry),
    length dm = off + sum_nat (map String.length ws) ->
    match last ws with
    | Some w =>
        if String.length w =? 0
        then for_each (enumerate_from k ws) index_body (dm, off) = Raise IndexError
        else exists dm', for_each (enumerate_from k ws) index_body (dm, off)
                         = Ok (dm', off + sum_nat (map String.length ws)) /\
                         length dm' = length dm
    | None => for_each (enumerate_from k ws) index_body (dm, off) = Ok (dm, off)
    end.
Proof.
  induction ws as [|w ws IH]; intros k off dm Hlen; [reflexivity|].
  cbn [map] in Hlen. rewrite sum_nat_cons in Hlen.
  cbn [enumerate_from for_each].
  destruct ws as [|w' ws'].
  - cbn [last]. unfold sum_nat in Hlen. cbn [map fold_left] in Hlen.
    destruct (Nat.eqb_spec (String.length w) 0) as [Hz|Hnz].
    + rewrite index_body_out_of_range by lia. reflexivity.
    + destruct (index_body_in_range dm off k w ltac:(lia)) as (dm' & Hb & Hl).
      rewrite Hb. cbn [bind enumerate_from for_each]. exists dm'. split; [|exact Hl].
      cbn [map]. rewrite sum_nat_cons. unfold sum_nat. cbn. do 2 f_equal. lia.
  - rewrite last_cons_cons.
    destruct (last (w' :: ws')) as [wl|] eqn:Hlast;
      [|apply last_None in Hlast; discriminate Hlast].
    destruct (decide (off < length dm)) as [Hlt|Hge].
    + destruct (index_body_in_range dm off k w Hlt) as (dm' & Hb & Hl).
      rewrite Hb. cbn [bind].
      specialize (IH (S k) (off + String.length w) dm' ltac:(lia)).
      destruct (String.length wl =? 0); [exact IH|].
      destruct IH as (dm'' & Hrun & Hl'). exists dm''. split; [|lia].
      rewrite Hrun. cbn [map]. rewrite (sum_nat_cons (String.length w)).
      do 2 f_equal. lia.
    + rewrite index_body_out_of_range by lia. cbn [bind].
      assert (Hwl : String.length wl = 0).
      { apply (sum_nat_zero (map String.length (w' :: ws'))); [lia|].
        apply list_elem_of_In, in_map, list_elem_of_In.
        eapply last_Some_elem_of. exact Hlast. }
      rewrite Hwl. reflexivity.
Qed.

Lemma lookup_map {A B : Type} (f : A -> B) (l : list A) (i : nat) :
  map f l !! i = f <$> (l !! i).
Proof. change (map f l) with (f <$> l). apply list_lookup_fmap. Qed.

(** X1: for words with at least one character each,
    [generate_start_end_map] returns a table with one entry for each
    character; the entry at the start offset of word [k] holds the word's
    end offset and [k], and every other entry is empty. *)
Theorem span_indexer_table (data_list : list string) :
  Forall (fun w => 0 < String.length w) data_list ->
  exists data_map,
    generate_start_end_map data_list = Ok data_map /\
    length data_map = sum_nat (map String.length data_list) /\
    (forall k w, data_list !! k = Some w ->
       data_map !! start_of (map String.length data_list) k
       = Some (SpanEntry
                 (Some (start_of (map String.length data_list) k + String.length w))
                 (Some k))) /\
    (forall i ent, data_map !! i = Some ent ->
       ent = empty_entry \/
       exists k w, data_list !! k = Some w /\
                   i = start_of (map String.length data_list) k /\
                   ent = SpanEntry (Some (i + String.length w)) (Some k)).
Proof.
  intros Hws.
  assert (Hpos : Forall (fun n => 0 < n) (map String.length data_list)).
  { clear -Hws. induction Hws; cbn [map]; constructor; assumption. }
  exists (layout 0 0 (map String.length data_list)).
  split; [apply generate_start_end_map_layout, Hws|].
  split; [apply length_layout, Hpos|]. split.
  - intros k w Hk.
    apply (layout_lookup_start _ Hpos 0 0 k (String.length w)).
    rewrite lookup_map, Hk. reflexivity.
  - intros i ent Hi.
    destruct (table_entry _ i ent Hpos Hi) as [->|(k & n & Hk & Hik & ->)];
      [left; reflexivity|].
    right. rewrite lookup_map in Hk.
    destruct (data_list !! k) as [w|] eqn:Hw; [|discriminate].
    injection Hk as <-. exists k, w. auto.
Qed.

Lemma span_indexer_table_witness :
  exists data_map,
    generate_start_end_map ["ab"; "c"; "def"]%string = Ok data_map /\
    length data_map = sum_nat (map String.length ["ab"; "c"; "def"]%string) /\
    (forall k w, ["ab"; "c"; "def"]%string !! k = Some w ->
       data_map !! start_of (map String.length ["ab"; "c"; "def"]%string) k
       = Some (SpanEntry
                 (Some (start_of (map String.length ["ab"; "c"; "def"]%string) k
                        + String.length w))
                 (Some k))) /\
    (forall i ent, data_map !! i = Some ent ->
       ent = empty_entry \/
       exists k w, ["ab"; "c"; "def"]%string !! k = Some w /\
                   i = start_of (map String.length ["ab"; "c"; "def"]%string) k /\
                   ent = SpanEntry (Some (i + String.length w)) (Some k)).
Proof.
  apply (span_indexer_table ["ab"; "c"; "def"]%string).
  repeat constructor.
Defined.

(** X2: [generate_start_end_map] raises [IndexError] exactly when the last
    word of its list is empty; otherwise it returns a table with one entry
    for each character of the words.  (An empty word elsewhere does not
    make it fail.) *)
Theorem span_indexer_outcome (data_list : list string) :
  (generate_start_end_map data_list = Raise IndexError <->
   exists w, last data_list = Some w /\ String.length w = 0) /\
  ((forall w, last data_list = Some w -> 0 < String.length w) ->
   exists data_map,
     generate_start_end_map data_list = Ok data_map /\
     length data_map = sum_nat (map String.length data_list)) /\
  generate_start_end_map [""; "a"]%string
  = Ok [SpanEntry (Some 1) (Some 1)].
Proof.
  pose proof (index_loop_outcome data_list 0 0
                (replicate (sum_nat (map String.length data_list)) empty_entry)
                ltac:(rewrite length_replicate; reflexivity)) as H.
  unfold generate_start_end_map, enumerate.
  destruct (last data_list) as [w|] eqn:Hlast.
  - destruct (Nat.eqb_spec (String.length w) 0) as [Hz|Hnz].
    + rewrite H. cbn [bind]. split; [|split; [|reflexivity]].
      * split; [intros _; exists w; auto | reflexivity].
      * intros Hall. specialize (Hall w eq_refl). lia.
    + destruct H as (dm & -> & Hlen). cbn [bind].
      rewrite length_replicate in Hlen. split; [|split; [|reflexivity]].
      * split; [discriminate | intros (w' & [= <-] & Hw'); lia].
      * intros _. exists dm. auto.
  - rewrite H. cbn [bind]. split; [|split; [|reflexivity]].
    + split; [discriminate | intros (w' & Hw' & _); discriminate].
    + intros _. eexists. split; [reflexivity|].
      apply last_None in Hlast. subst. reflexivity.
Qed.

(** ** map_predicted_with_gold_words *)

(** X3: for sequences with well-formed spans, the map has one entry for
    ROOT and one for each predicted token, and the entry of predicted token
    [p] is the index of gold token [g] exactly when the two tokens have the
    same start offset and the same length; a defined entry of a token is
    an index between 1 and [len(gold_list)]. *)
Theorem alignment_exact_spans (predicted_list gold_list : list word_info) :
  spans_ok predicted_list gold_list = true ->
  exists m c,
    map_predicted_with_gold_words predicted_list gold_list = Ok (m, c) /\
    length m = length predicted_list + 1 /\
    (forall p g,
       m !! (p + 1) = Some (Some (g + 1)) <->
       exists n, lens predicted_list !! p = Some n /\ lens gold_list !! g = Some n /\
                 start_of (lens predicted_list) p = start_of (lens gold_list) g) /\
    (forall p v, m !! (p + 1) = Some (Some v) -> 1 <= v <= length gold_list).
Proof.
  intros Hspans.
  destruct (spans_ok_nonempty _ _ Hspans) as [Hpne Hgne].
  destruct (map_predicted_with_gold_words_spec _ _ Hspans) as (m & c & Hmap & Hal).
  pose proof (alignment_map_fits _ _ m c Hpne Hgne Hal) as [Hlen Hval].
  pose proof (nonempty_words_lens _ Hpne) as Hp.
  pose proof (nonempty_words_lens _ Hgne) as Hg.
  destruct Hal as (_ & _ & _ & Hent).
  exists m, c. split; [exact Hmap|]. split; [exact Hlen|]. split.
  - intros p g. rewrite !Nat.add_1_r. rewrite Hent. split.
    + intros (i & g' & Hi & Hm & Hwp & Hwg & [= <-]).
      destruct (table_word_at _ _ _ Hp Hwp) as (Hip & n & Hn & Hpe).
      destruct (table_word_at _ _ _ Hg Hwg) as (Hig & n' & Hn' & Hge).
      unfold matched in Hm. rewrite Hpe, Hge in Hm. apply Nat.eqb_eq in Hm.
      exists n. split; [exact Hn|]. split; [|congruence].
      replace n with n' by lia. exact Hn'.
    + intros (n & Hn & Hn' & Hst).
      pose proof (layout_lookup_start _ Hp 0 0 p n Hn) as Hpe.
      pose proof (layout_lookup_start _ Hg 0 0 g n Hn') as Hge.
      cbn [Nat.add] in Hpe, Hge. rewrite <- Hst in Hge.
      pose proof (start_of_lt _ Hp p n Hn) as Hend.
      assert (0 < n) by (eapply (proj1 (Forall_lookup _ _) Hp); exact Hn).
      exists (start_of (lens predicted_list) p), g.
      unfold matched, word_at. rewrite Hpe, Hge. cbn [ent_word_idx].
      rewrite Nat.eqb_refl. unfold stream_len. repeat split. lia.
  - intros p v Hv. rewrite Nat.add_1_r in Hv.
    destruct (Hval _ _ Hv) as (g & -> & Hlt). lia.
Qed.

Lemma alignment_exact_spans_witness :
  exists m c,
    map_predicted_with_gold_words split_predicted split_gold = Ok (m, c) /\
    length m = length split_predicted + 1 /\
    (forall p g,
       m !! (p + 1) = Some (Some (g + 1)) <->
       exists n, lens split_predicted !! p = Some n /\ lens split_gold !! g = Some n /\
                 start_of (lens split_predicted) p = start_of (lens split_gold) g) /\
    (forall p v, m !! (p + 1) = Some (Some v) -> 1 <= v <= length split_gold).
Proof.
  apply (alignment_exact_spans split_predicted split_gold). reflexivity.
Defined.

(** X4: for sequences with well-formed spans, the count that
    [map_predicted_with_gold_words] returns is the number of predicted
    tokens whose map entry is defined. *)
Theorem alignment_count_is_aligned_tokens (predicted_list gold_list : list word_info) :
  spans_ok predicted_list gold_list = true ->
  exists m c,
    map_predicted_with_gold_words predicted_list gold_list = Ok (m, c) /\
    c = count (is_aligned m) (enumerate predicted_list).
Proof.
  intros Hspans.
  destruct (spans_ok_nonempty _ _ Hspans) as [Hpne Hgne].
  destruct (map_predicted_with_gold_words_spec _ _ Hspans) as (m & c & Hmap & Hal).
  exists m, c. split; [exact Hmap|].
  apply Nat.le_antisymm; [|eapply alignment_aligned_le_count; eassumption].
  pose proof (nonempty_words_lens _ Hpne) as Hp.
  pose proof (nonempty_words_lens _ Hgne) as Hg.
  destruct Hal as (_ & _ & -> & Hent). unfold count.
  set (pm := layout 0 0 (lens predicted_list)).
  set (gm := layout 0 0 (lens gold_list)).
  set (f := fun i : nat =>
              let p := default 0 (word_at pm i) in
              (p, default (WordInfo "" "" 0 "") (predicted_list !! p))).
  assert (Hf : forall i, matched pm gm i = true ->
             exists p g t, word_at pm i = Some p /\ word_at gm i = Some g /\
                           predicted_list !! p = Some t /\ f i = (p, t)).
  { intros i Hm.
    destruct (matched_words _ _ i Hp Hg Hm) as (p & g & Hwp & Hwg & Hlt & _).
    rewrite length_lens in Hlt.
    destruct (lookup_lt_is_Some_2 predicted_list p Hlt) as [t Ht].
    exists p, g, t. repeat split; try assumption.
    subst f. cbv beta zeta. fold pm in Hwp. rewrite Hwp.
    change (default 0 (Some p)) with p. rewrite Ht. reflexivity. }
  apply (NoDup_inj_length f).
  - apply NoDup_filter, NoDup_seq.
  - intros x y Hx Hy Hxy.
    apply list_elem_of_filter in Hx as [Hx _]. apply list_elem_of_filter in Hy as [Hy _].
    destruct (Hf x Hx) as (px & gx & tx & Hpx & _ & _ & Ex).
    destruct (Hf y Hy) as (py & gy & ty & Hpy & _ & _ & Ey).
    rewrite Ex, Ey in Hxy. injection Hxy as Hpp Htt. rewrite Hpp in Hpx.
    eapply (table_word_at_inj (lens predicted_list)); eassumption.
  - intros x Hx. apply list_elem_of_filter in Hx as [Hx Hin]. apply elem_of_seq in Hin.
    destruct (Hf x Hx) as (p & g & t & Hwp & Hwg & Ht & ->).
    apply list_elem_of_filter. split; [|apply elem_of_enumerate; exact Ht].
    unfold is_aligned. cbn [fst]. rewrite Nat.add_1_r.
    rewrite (proj2 (Hent p (S g))); [reflexivity|].
    exists x, g. repeat split; auto. lia.
Qed.

Lemma alignment_count_is_aligned_tokens_witness :
  exists m c,
    map_predicted_with_gold_words split_predicted split_gold = Ok (m, c) /\
    c = count (is_aligned m) (enumerate split_predicted).
Proof.
  apply (alignment_count_is_aligned_tokens split_predicted split_gold). reflexivity.
Defined.

(** ** Loops that fail, and loops that count *)

Lemma for_each_total {A S : Type} (body : A -> S -> result S) (xs : list A) :
  (forall x s, x ∈ xs -> exists s', body x s = Ok s') ->
  forall s, exists s', for_each xs body s = Ok s'.
Proof.
  induction xs as [|x xs IH]; intros Hbody s; cbn [for_each]; [eauto|].
  destruct (Hbody x s ltac:(left)) as [s1 ->]. cbn [bind].
  apply IH. intros y t Hy. apply Hbody. right. exact Hy.
Qed.

(** When the iterations raise nothing but [e] and one of them always raises,
    the loop raises [e]. *)
Lemma for_each_raises {A S : Type} (body : A -> S -> result S) (e : exn)
  (xs : list A) :
  (forall x s e', x ∈ xs -> body x s = Raise e' -> e' = e) ->
  (exists x, x ∈ xs /\ forall s, body x s = Raise e) ->
  forall s, for_each xs body s = Raise e.
Proof.
  induction xs as [|x xs IH]; intros Honly (y & Hy & Hraise) s.
  - inversion Hy.
  - cbn [for_each]. destruct (body x s) as [s1|e1] eqn:Hb.
    + cbn [bind]. apply IH.
      * intros z t e' Hz. apply Honly. right. exact Hz.
      * exists y. split; [|exact Hraise].
        apply elem_of_cons in Hy as [->|Hy]; [|exact Hy].
        rewrite Hraise in Hb. discriminate Hb.
    + cbn [bind]. f_equal. eapply Honly; [left | exact Hb].
Qed.

(** A measure that an iteration raises by at most one is raised by the loop
    by at most the number of iterations. *)
Lemma for_each_bound {A S : Type} (body : A -> S -> result S) (mu : S -> nat)
  (xs : list A) :
  (forall x s s', body x s = Ok s' -> mu s' <= mu s + 1) ->
  forall s s', for_each xs body s = Ok s' -> mu s' <= mu s + length xs.
Proof.
  intros Hstep. induction xs as [|x xs IH]; intros s s' Hrun; cbn [for_each] in Hrun.
  - injection Hrun as <-. cbn. lia.
  - apply bind_Ok in Hrun as (s1 & H1 & H2).
    apply Hstep in H1. apply IH in H2. cbn [length]. lia.
Qed.

Lemma getitem_error {A : Type} (l : list A) (i : nat) (e : exn) :
  getitem l i = Raise e -> e = IndexError.
Proof. unfold getitem. destruct (l !! i); congruence. Qed.

Lemma getitem_int_error {A : Type} (l : list A) (i : Z) (e : exn) :
  getitem_int l i = Raise e -> e = IndexError.
Proof.
  unfold getitem_int. destruct (i <? 0)%Z; [destruct (i + _ <? 0)%Z|];
    try congruence; apply getitem_error.
Qed.

Lemma bind_Raise {A B : Type} (m : result A) (k : A -> result B) (e : exn) :
  bind m k = Raise e -> m = Raise e \/ exists a, m = Ok a /\ k a = Raise e.
Proof. destruct m as [a|e']; cbn; [eauto | intros [= ->]; auto]. Qed.

Lemma pos_body_error (gold_list : list word_info) (m : list (option nat))
  (it : nat * word_info) (c : nat) (e : exn) :
  pos_body gold_list m it c = Raise e -> e = IndexError.
Proof.
  destruct it as [i t]. unfold pos_body. intros H.
  apply bind_Raise in H as [H|(v & _ & H)]; [eapply getitem_error; exact H|].
  destruct v as [g|]; [|discriminate].
  apply bind_Raise in H as [H|(gt & _ & H)]; [eapply getitem_int_error; exact H|].
  destruct (String.eqb _ _); discriminate.
Qed.

Lemma uas_las_body_error (gold_list : list word_info) (m : list (option nat))
  (it : nat * word_info) (s : nat * nat) (e : exn) :
  uas_las_body gold_list m it s = Raise e -> e = IndexError.
Proof.
  destruct it as [i t], s as [u l]. unfold uas_las_body. intros H.
  apply bind_Raise in H as [H|(v & _ & H)]; [eapply getitem_error; exact H|].
  destruct v as [g|]; [|discriminate].
  apply bind_Raise in H as [H|(gt & _ & H)]; [eapply getitem_int_error; exact H|].
  apply bind_Raise in H as [H|(he & _ & H)]; [eapply getitem_int_error; exact H|].
  destruct (entry_eq_int _ _); [destruct (String.eqb _ _)|]; discriminate.
Qed.

Lemma pos_body_step (gold_list : list word_info) (m : list (option nat))
  (it : nat * word_info) (c c' : nat) :
  pos_body gold_list m it c = Ok c' -> c <= c' <= c + 1.
Proof.
  destruct it as [i t]. unfold pos_body. intros H.
  apply bind_Ok in H as (v & _ & H).
  destruct v as [g|]; [|injection H as <-; lia].
  apply bind_Ok in H as (gt & _ & H).
  destruct (String.eqb _ _); injection H as <-; lia.
Qed.

Lemma uas_las_body_step (gold_list : list word_info) (m : list (option nat))
  (it : nat * word_info) (u l u' l' : nat) :
  uas_las_body gold_list m it (u, l) = Ok (u', l') ->
  u <= u' <= u + 1 /\ l <= l' /\ l' - l <= u' - u.
Proof.
  destruct it as [i t]. unfold uas_las_body. intros H.
  apply bind_Ok in H as (v & _ & H).
  destruct v as [g|]; [|injection H as <- <-; lia].
  apply bind_Ok in H as (gt & _ & H). apply bind_Ok in H as (he & _ & H).
  destruct (entry_eq_int _ _); [destruct (String.eqb _ _)|];
    injection H as <- <-; lia.
Qed.

Lemma for_each_error {A S : Type} (body : A -> S -> result S) (P : exn -> Prop)
  (xs : list A) :
  (forall x s e, body x s = Raise e -> P e) ->
  forall s e, for_each xs body s = Raise e -> P e.
Proof.
  intros Hbody. induction xs as [|x xs IH]; intros s e Hrun; cbn [for_each] in Hrun;
    [discriminate|].
  apply bind_Raise in Hrun as [H|(s1 & _ & H)]; [eapply Hbody | eapply IH]; exact H.
Qed.

(** ** get_pos_match and get_uas_las_match *)

(** X5: for sequences with well-formed spans, whatever their heads,
    [get_pos_match] over the alignment map returns the number of predicted
    tokens that are aligned to a gold token with the same tag, which is at
    most the correct segmentation count. *)
Theorem pos_match_counts_aligned_tags (predicted_list gold_list : list word_info) :
  spans_ok predicted_list gold_list = true ->
  exists m c,
    map_predicted_with_gold_words predicted_list gold_list = Ok (m, c) /\
    get_pos_match predicted_list gold_list m
    = Ok (count (pos_correct gold_list m) (enumerate predicted_list)) /\
    count (pos_correct gold_list m) (enumerate predicted_list) <= c /\
    forall p t, predicted_list !! p = Some t ->
      (pos_correct gold_list m (p, t) = true <->
       exists g gold_token,
         m !! (p + 1) = Some (Some (g + 1)) /\
         gold_list !! g = Some gold_token /\ pos t = pos gold_token).
Proof.
  intros Hspans.
  destruct (spans_ok_nonempty _ _ Hspans) as [Hpne Hgne].
  destruct (map_predicted_with_gold_words_spec _ _ Hspans) as (m & c & Hmap & Hal).
  pose proof (alignment_map_fits _ _ m c Hpne Hgne Hal) as Hfits.
  exists m, c. split; [exact Hmap|]. split; [apply get_pos_match_spec, Hfits|].
  split.
  - pose proof (alignment_aligned_le_count _ _ m c Hpne Hal) as Hle.
    pose proof (count_le_aligned m _ (enumerate predicted_list)
                  (pos_correct_aligned gold_list m)) as Hle'.
    lia.
  - intros p t Hp. unfold pos_correct. cbn [fst snd]. split.
    + destruct (m !! (p + 1)) as [[v|]|] eqn:Hv; try discriminate.
      rewrite Nat.add_1_r in Hv. destruct (proj2 Hfits _ _ Hv) as (g & -> & _).
      cbn [Nat.sub]. rewrite Nat.sub_0_r.
      destruct (gold_list !! g) as [gt|] eqn:Hg; [|discriminate].
      intros H. apply String.eqb_eq in H. exists g, gt.
      rewrite Nat.add_1_r. auto.
    + intros (g & gt & -> & Hg & Hpos). rewrite Nat.add_sub, Hg.
      apply String.eqb_eq. exact Hpos.
Qed.

Lemma pos_match_counts_aligned_tags_witness :
  exists m c,
    map_predicted_with_gold_words split_predicted split_gold = Ok (m, c) /\
    get_pos_match split_predicted split_gold m
    = Ok (count (pos_correct split_gold m) (enumerate split_predicted)) /\
    count (pos_correct split_gold m) (enumerate split_predicted) <= c /\
    forall p t, split_predicted !! p = Some t ->
      (pos_correct split_gold m (p, t) = true <->
       exists g gold_token,
         m !! (p + 1) = Some (Some (g + 1)) /\
         split_gold !! g = Some gold_token /\ pos t = pos gold_token).
Proof.
  apply (pos_match_counts_aligned_tags split_predicted split_gold). reflexivity.
Defined.

(** X6: whatever the lists and the map, a count that [get_pos_match]
    returns is at most the number of predicted tokens, and the counts that
    [get_uas_las_match] returns satisfy
    [las_count <= uas_count <= len(predicted_list)]. *)
Theorem scorer_counts_bounded (predicted_list gold_list : list word_info)
  (m : list (option nat)) :
  (forall pc, get_pos_match predicted_list gold_list m = Ok pc ->
              pc <= length predicted_list) /\
  (forall u l, get_uas_las_match predicted_list gold_list m = Ok (u, l) ->
               l <= u /\ u <= length predicted_list).
Proof.
  split.
  - intros pc H. unfold get_pos_match in H.
    apply (for_each_bound _ (fun c => c)) in H.
    + rewrite length_enumerate in H. exact H.
    + intros it c c' Hb. apply pos_body_step in Hb. lia.
  - intros u l H. unfold get_uas_las_match in H. split.
    + apply (for_each_inv (fun s => snd s <= fst s) _ _) with (s := (0, 0)) in H;
        [exact H | | cbn; lia].
      intros it [u1 l1] [u2 l2] _ Hle Hb. cbn [fst snd] in *.
      apply uas_las_body_step in Hb. lia.
    + apply (for_each_bound _ fst) in H.
      * rewrite length_enumerate in H. exact H.
      * intros it [u1 l1] [u2 l2] Hb. apply uas_las_body_step in Hb. cbn [fst]. lia.
Qed.

(** X7: the two scorers raise nothing but [IndexError], and they raise it
    whenever the map has fewer entries than one for ROOT and one for each
    token of a non-empty predicted list. *)
Theorem scorer_short_map_raises (predicted_list gold_list : list word_info)
  (m : list (option nat)) :
  (forall e, get_pos_match predicted_list gold_list m = Raise e -> e = IndexError) /\
  (forall e, get_uas_las_match predicted_list gold_list m = Raise e ->
             e = IndexError) /\
  (predicted_list <> [] -> length m <= length predicted_list ->
   get_pos_match predicted_list gold_list m = Raise IndexError /\
   get_uas_las_match predicted_list gold_list m = Raise IndexError).
Proof.
  split; [|split].
  - intros e. apply (for_each_error _ (fun e => e = IndexError)).
    intros it c e'. apply pos_body_error.
  - intros e. apply (for_each_error _ (fun e => e = IndexError)).
    intros it s e'. apply uas_las_body_error.
  - intros Hne Hlen. pose proof (nonempty_length _ Hne) as Hn.
    destruct (lookup_lt_is_Some_2 predicted_list (length m - 1)) as [t Ht]; [lia|].
    assert (Hnone : getitem m (length m - 1 + 1) = Raise IndexError).
    { unfold getitem. rewrite (proj2 (lookup_ge_None m _)) by lia. reflexivity. }
    split.
    + apply for_each_raises.
      * intros it c e' _. apply pos_body_error.
      * exists (length m - 1, t). split; [apply elem_of_enumerate, Ht|].
        intros c. unfold pos_body. rewrite Hnone. reflexivity.
    + apply for_each_raises.
      * intros it s e' _. apply uas_las_body_error.
      * exists (length m - 1, t). split; [apply elem_of_enumerate, Ht|].
        intros [u l]. unfold uas_las_body. rewrite Hnone. reflexivity.
Qed.

Lemma getitem_int_in_range {A : Type} (l : list A) (i : Z) :
  (- Z.of_nat (length l) <= i < Z.of_nat (length l))%Z ->
  exists x, getitem_int l i = Ok x.
Proof.
  intros Hi. unfold getitem_int.
  destruct (Z.ltb_spec i 0).
  - destruct (Z.ltb_spec (i + Z.of_nat (length l)) 0); [lia|].
    destruct (lookup_lt_is_Some_2 l (Z.to_nat (i + Z.of_nat (length l)))) as [x Hx];
      [lia|].
    exists x. apply getitem_Some, Hx.
  - destruct (lookup_lt_is_Some_2 l (Z.to_nat i)) as [x Hx]; [lia|].
    exists x. apply getitem_Some, Hx.
Qed.

Lemma getitem_int_out_of_range {A : Type} (l : list A) (i : Z) :
  (i < - Z.of_nat (length l) \/ Z.of_nat (length l) <= i)%Z ->
  getitem_int l i = Raise IndexError.
Proof.
  intros Hi. unfold getitem_int.
  destruct (Z.ltb_spec i 0).
  - destruct (Z.ltb_spec (i + Z.of_nat (length l)) 0); [reflexivity | lia].
  - unfold getitem. rewrite (proj2 (lookup_ge_None l _)) by lia. reflexivity.
Qed.

(** The scorer's iteration on an aligned token, up to the read of the head's
    entry. *)
Lemma uas_las_body_aligned (predicted_list gold_list : list word_info)
  (m : list (option nat)) (i : nat) (t : word_info) (u l : nat) :
  map_fits (length predicted_list) (length gold_list) m ->
  is_aligned m (i, t) = true ->
  exists gold_token,
    uas_las_body gold_list m (i, t) (u, l)
    = (let* head_entry := getitem_int m (head_idx t) in
       if entry_eq_int head_entry (head_idx gold_token) then
         if String.eqb (dep_label t) (dep_label gold_token)
         then Ok (u + 1, l + 1)
         else Ok (u + 1, l)
       else Ok (u, l)).
Proof.
  intros [Hlen Hval] Hal. unfold is_aligned in Hal. cbn [fst] in Hal.
  destruct (m !! (i + 1)) as [[v|]|] eqn:Hv; try discriminate.
  unfold uas_las_body. rewrite (getitem_Some _ _ _ Hv). cbn [bind].
  rewrite Nat.add_1_r in Hv. destruct (Hval _ _ Hv) as (g & -> & Hg).
  replace (Z.of_nat (S g) - 1)%Z with (Z.of_nat g) by lia.
  rewrite getitem_int_nonneg.
  destruct (lookup_lt_is_Some_2 gold_list g Hg) as [gt Hgt].
  rewrite (getitem_Some _ _ _ Hgt). cbn [bind]. exists gt. reflexivity.
Qed.

(** X8: for sequences with well-formed spans, [get_uas_las_match] over the
    alignment map returns when the head of every aligned predicted token is
    an int that Python accepts as an index of the map
    ([-(N+1) <= head_idx <= N] for [N] predicted tokens), and raises
    [IndexError] when the head of some aligned token is not; the heads of
    the tokens that are not aligned are not read. *)
Theorem uas_las_heads_in_range (predicted_list gold_list : list word_info) :
  spans_ok predicted_list gold_list = true ->
  exists m c,
    map_predicted_with_gold_words predicted_list gold_list = Ok (m, c) /\
    ((forall i t, predicted_list !! i = Some t -> is_aligned m (i, t) = true ->
        (- Z.of_nat (length predicted_list + 1) <= head_idx t
         <= Z.of_nat (length predicted_list))%Z) ->
     exists u l, get_uas_las_match predicted_list gold_list m = Ok (u, l)) /\
    ((exists i t, predicted_list !! i = Some t /\ is_aligned m (i, t) = true /\
        (head_idx t < - Z.of_nat (length predicted_list + 1) \/
         Z.of_nat (length predicted_list) < head_idx t)%Z) ->
     get_uas_las_match predicted_list gold_list m = Raise IndexError).
Proof.
  intros Hspans.
  destruct (spans_ok_nonempty _ _ Hspans) as [Hpne Hgne].
  destruct (map_predicted_with_gold_words_spec _ _ Hspans) as (m & c & Hmap & Hal).
  pose proof (alignment_map_fits _ _ m c Hpne Hgne Hal) as Hfits.
  pose proof (proj1 Hfits) as Hlen.
  exists m, c. split; [exact Hmap|]. split.
  - intros Hheads. unfold get_uas_las_match.
    destruct (for_each_total (uas_las_body gold_list m) (enumerate predicted_list))
      with (s := (0, 0)) as [[u l] Hrun]; [|eauto].
    intros [i t] [u l] Hit. apply elem_of_enumerate in Hit.
    destruct (is_aligned m (i, t)) eqn:Ha.
    + destruct (uas_las_body_aligned _ _ m i t u l Hfits Ha) as (gt & ->).
      destruct (getitem_int_in_range m (head_idx t)) as [he ->].
      { specialize (Hheads i t Hit Ha). rewrite Hlen. lia. }
      cbn [bind].
      destruct (entry_eq_int _ _); [destruct (String.eqb _ _)|]; eauto.
    + unfold is_aligned in Ha. cbn [fst] in Ha. unfold uas_las_body.
      apply lookup_lt_Some in Hit.
      destruct (lookup_lt_is_Some_2 m (i + 1)) as [e He]; [lia|].
      rewrite (getitem_Some _ _ _ He). rewrite He in Ha. cbn [bind].
      destruct e; [discriminate | eauto].
  - intros (i & t & Hit & Ha & Hh). apply for_each_raises.
    + intros it s e' _. apply uas_las_body_error.
    + exists (i, t). split; [apply elem_of_enumerate, Hit|].
      intros [u l].
      destruct (uas_las_body_aligned _ _ m i t u l Hfits Ha) as (gt & ->).
      rewrite getitem_int_out_of_range by (rewrite Hlen; lia). reflexivity.
Qed.

Lemma uas_las_heads_in_range_witness :
  exists m c,
    map_predicted_with_gold_words split_predicted split_gold = Ok (m, c) /\
    ((forall i t, split_predicted !! i = Some t -> is_aligned m (i, t) = true ->
        (- Z.of_nat (length split_predicted + 1) <= head_idx t
         <= Z.of_nat (length split_predicted))%Z) ->
     exists u l, get_uas_las_match split_predicted split_gold m = Ok (u, l)) /\
    ((exists i t, split_predicted !! i = Some t /\ is_aligned m (i, t) = true /\
        (head_idx t < - Z.of_nat (length split_predicted + 1) \/
         Z.of_nat (length split_predicted) < head_idx t)%Z) ->
     get_uas_las_match split_predicted split_gold m = Raise IndexError).
Proof.
  apply (uas_las_heads_in_range split_predicted split_gold). reflexivity.
Defined.

(** ** get_f1_score *)




(** ** get_parser_evaluation *)




Lemma guarded_full (n : nat) :
  0 < n -> ((if 0 <? n then of_int n / of_int n * 100 else 0) == 100)%Q.
Proof.
  intros Hn. rewrite (proj2 (Nat.ltb_lt _ _) Hn). apply percent_full, Hn.
Qed.

(** X11: a non-empty sentence of non-empty tokens whose heads are ROOT or
    tokens of the sentence, evaluated against itself, gets every count equal
    to its length and every rate equal to 100. *)
Theorem self_evaluation_is_perfect (sentence : list word_info) :
  sentence <> [] ->
  nonempty_words sentence = true ->
  heads_ok sentence = true ->
  exists ev,
    get_parser_evaluation sentence sentence = Ok ev /\
    (correct_count ev = length sentence /\ pos_match ev = length sentence /\
     uas_match ev = length sentence /\ las_match ev = length sentence) /\
    (precision ev == 100)%Q /\ (recall ev == 100)%Q /\ (f1_score ev == 100)%Q /\
    (pos_acc ev == 100)%Q /\
    (uas_score ev == 100)%Q /\ (uas_precision ev == 100)%Q /\
    (uas_recall ev == 100)%Q /\ (uas_f1_score ev == 100)%Q /\
    (las_score ev == 100)%Q /\ (las_precision ev == 100)%Q /\
    (las_recall ev == 100)%Q /\ (las_f1_score ev == 100)%Q.
Proof.
  intros Hne Hp Hheads.
  assert (Hsw : starts_within sentence sentence = true)
    by (apply shorter_starts_within; [exact Hp | reflexivity]).
  assert (Hwf : well_formed sentence sentence = true)
    by (unfold well_formed, spans_ok; rewrite Hp, Hsw, Hheads; reflexivity).
  destruct (get_parser_evaluation_well_formed _ _ Hwf Hne Hne)
    as (m & c & ev & Hmap & Hal & Hev & Hof).
  pose proof (identical_spans_identity _ _ m c Hp eq_refl Hal) as Hid.
  pose proof (nonempty_length _ Hne) as Hn.
  assert (Hc : c = length sentence).
  { pose proof (alignment_count_le_predicted _ _ m c Hp Hp Hal) as Hle.
    pose proof (alignment_aligned_le_count _ _ m c Hp Hal) as Hge.
    rewrite count_all, length_enumerate in Hge; [lia|].
    intros [i t] Hit. apply elem_of_enumerate, lookup_lt_Some in Hit.
    unfold is_aligned. cbn [fst]. rewrite Hid by lia. reflexivity. }
  assert (Hitem : forall i t, (i, t) ∈ enumerate sentence ->
            pos_correct sentence m (i, t) = true /\
            unlabeled_correct sentence m (i, t) = true /\
            labeled_correct sentence m (i, t) = true).
  { intros i t Hit. apply elem_of_enumerate in Hit.
    pose proof (heads_ok_spec _ _ _ Hheads Hit) as Hh.
    pose proof (lookup_lt_Some _ _ _ Hit) as Hlt.
    unfold labeled_correct, unlabeled_correct, label_correct, pos_correct.
    cbn [fst snd]. rewrite (Hid (i + 1)) by lia. rewrite Nat.add_sub, Hit.
    rewrite (Hid (Z.to_nat (head_idx t))) by lia.
    rewrite Z2Nat.id by lia. rewrite Z.eqb_refl, !String.eqb_refl. auto. }
  destruct Hof as (E1 & E2 & E3 & E4 & E5 & E6 & Ep & Er & Ef & Epa & Eus & Eup & Eur
                   & Euf & Els & Elp & Elr & Elf).
  rewrite count_all, length_enumerate in E4, Epa
    by (intros [i t] Hit; apply (Hitem i t Hit)).
  rewrite count_all, length_enumerate in E5, Eus, Eup, Eur
    by (intros [i t] Hit; apply (Hitem i t Hit)).
  rewrite count_all, length_enumerate in E6, Els, Elp, Elr
    by (intros [i t] Hit; apply (Hitem i t Hit)).
  rewrite Hc in E3, Ep, Er, Epa, Eus, Els.
  assert (Bp : (precision ev == 100)%Q) by (rewrite Ep; apply percent_full, Hn).
  assert (Br : (recall ev == 100)%Q) by (rewrite Er; apply percent_full, Hn).
  assert (Bup : (uas_precision ev == 100)%Q) by (rewrite Eup; apply percent_full, Hn).
  assert (Bur : (uas_recall ev == 100)%Q) by (rewrite Eur; apply percent_full, Hn).
  assert (Blp : (las_precision ev == 100)%Q) by (rewrite Elp; apply percent_full, Hn).
  assert (Blr : (las_recall ev == 100)%Q) by (rewrite Elr; apply percent_full, Hn).
  exists ev. split; [exact Hev|]. split; [auto|].
  split; [exact Bp|]. split; [exact Br|].
  split; [exact (f1_score_full _ _ _ Bp Br Ef)|].
  split; [rewrite Epa; apply guarded_full, Hn|].
  split; [rewrite Eus; apply guarded_full, Hn|].
  split; [exact Bup|]. split; [exact Bur|].
  split; [exact (f1_score_full _ _ _ Bup Bur Euf)|].
  split; [rewrite Els; apply guarded_full, Hn|].
  split; [exact Blp|]. split; [exact Blr|].
  exact (f1_score_full _ _ _ Blp Blr Elf).
Qed.

Lemma self_evaluation_is_perfect_witness :
  exists ev,
    get_parser_evaluation exact_sentence exact_sentence = Ok ev /\
    (correct_count ev = length exact_sentence /\ pos_match ev = length exact_sentence /\
     uas_match ev = length exact_sentence /\ las_match ev = length exact_sentence) /\
    (precision ev == 100)%Q /\ (recall ev == 100)%Q /\ (f1_score ev == 100)%Q /\
    (pos_acc ev == 100)%Q /\
    (uas_score ev == 100)%Q /\ (uas_precision ev == 100)%Q /\
    (uas_recall ev == 100)%Q /\ (uas_f1_score ev == 100)%Q /\
    (las_score ev == 100)%Q /\ (las_precision ev == 100)%Q /\
    (las_recall ev == 100)%Q /\ (las_f1_score ev == 100)%Q.
Proof.
  apply (self_evaluation_is_perfect exact_sentence);
    [discriminate | reflexivity | reflexivity].
Defined.

(** X12: with an empty gold list and a non-empty predicted list of non-empty
    tokens the alignment reads [gold_index_map[0]] of an empty table:
    [map_predicted_with_gold_words], and with it [get_parser_evaluation],
    raises [IndexError]. *)
Theorem empty_gold_raises (predicted_list : list word_info) :
  predicted_list <> [] ->
  nonempty_words predicted_list = true ->
  map_predicted_with_gold_words predicted_list [] = Raise IndexError /\
  get_parser_evaluation predicted_list [] = Raise IndexError.
Proof.
  intros Hne Hp.
  assert (Hsw : starts_within predicted_list [] = false).
  { unfold starts_within, range. destruct predicted_list as [|t l]; [congruence|].
    reflexivity. }
  destruct (map_predicted_with_gold_words_raises predicted_list [] Hp eq_refl Hsw)
    as [_ Hmap].
  split; [exact Hmap|]. unfold get_parser_evaluation. rewrite Hmap. reflexivity.
Qed.

Lemma empty_gold_raises_witness :
  map_predicted_with_gold_words partial_predicted [] = Raise IndexError /\
  get_parser_evaluation partial_predicted [] = Raise IndexError.
Proof.
  apply (empty_gold_raises partial_predicted); [discriminate | reflexivity].
Defined.

(** ** get_epoch_evaluation *)

Lemma get_epoch_evaluation_ok (evaluation_list : list evaluation) :
  evaluation_list <> [] ->
  exists ep,
    get_epoch_evaluation evaluation_list = Ok ep /\
    (forall f, (epoch_rate f ep == mean (map (sentence_rate f) evaluation_list))%Q) /\
    (forall f, epoch_sum f ep = list_sum (map (sentence_count f) evaluation_list)).
Proof.
  intros Hl. unfold get_epoch_evaluation.
  destruct (rate_mean_ok precision _ Hl) as (q1 & -> & H1).
  destruct (rate_mean_ok recall _ Hl) as (q2 & -> & H2).
  destruct (rate_mean_ok f1_score _ Hl) as (q3 & -> & H3).
  destruct (rate_mean_ok pos_acc _ Hl) as (q4 & -> & H4).
  destruct (rate_mean_ok uas_score _ Hl) as (q5 & -> & H5).
  destruct (rate_mean_ok las_score _ Hl) as (q6 & -> & H6).
  destruct (rate_mean_ok uas_f1_score _ Hl) as (q7 & -> & H7).
  destruct (rate_mean_ok las_f1_score _ Hl) as (q8 & -> & H8).
  cbn [bind]. eexists. split; [reflexivity|]. split.
  - intros []; assumption.
  - intros []; apply sum_nat_list_sum.
Qed.

Lemma sum_bounds (xs : list Q) :
  Forall is_percentage xs ->
  (0 <= fold_right Qplus 0 xs <= 100 * of_int (length xs))%Q.
Proof.
  induction 1 as [|x xs [Hx0 Hx1] _ [IH0 IH1]]; cbn [fold_right length].
  - change (of_int 0) with 0%Q. lra.
  - assert (E : (of_int (S (length xs)) == 1 + of_int (length xs))%Q).
    { unfold of_int. rewrite Nat2Z.inj_succ, <- Z.add_1_l, inject_Z_plus. reflexivity. }
    rewrite E. lra.
Qed.

Lemma mean_bounds (xs : list Q) :
  xs <> [] -> Forall is_percentage xs -> is_percentage (mean xs).
Proof.
  intros Hne Hxs. destruct (sum_bounds xs Hxs) as [H0 H1].
  pose proof (of_int_pos _ (nonempty_length _ Hne)) as Hn.
  unfold mean. split.
  - apply Qle_shift_div_l; [exact Hn|]. lra.
  - apply Qle_shift_div_r; [exact Hn|]. lra.
Qed.

Lemma list_sum_le (f g : evaluation -> nat) (l : list evaluation) :
  Forall (fun ev => f ev <= g ev) l -> list_sum (map f l) <= list_sum (map g l).
Proof. induction 1; simpl; lia. Qed.

(** X13: the epoch record of a single sentence has that sentence's rates and
    counts. *)
Theorem epoch_of_one_sentence (ev : evaluation) :
  exists ep,
    get_epoch_evaluation [ev] = Ok ep /\
    (forall f, (epoch_rate f ep == sentence_rate f ev)%Q) /\
    (forall f, epoch_sum f ep = sentence_count f ev).
Proof.
  destruct (get_epoch_evaluation_ok [ev] ltac:(discriminate)) as (ep & Hep & Hr & Hc).
  exists ep. split; [exact Hep|]. split.
  - intros f. rewrite Hr. unfold mean. cbn [map fold_right length].
    unfold of_int. cbn [Z.of_nat inject_Z Pos.of_succ_nat]. field.
  - intros f. rewrite Hc. simpl. lia.
Qed.

(** X14: when every sentence record has its eight averaged rates in
    [[0, 100]] and its counts ordered ([correct_count] at most both lengths,
    [pos_match] and [uas_match] at most [correct_count], [las_match] at most
    [uas_match]), so has the epoch record of a non-empty list of them. *)
Theorem epoch_bounds_from_sentences (evaluation_list : list evaluation) :
  evaluation_list <> [] ->
  Forall (fun ev => forall f, is_percentage (sentence_rate f ev)) evaluation_list ->
  Forall (fun ev => counts_ordered (fun f => sentence_count f ev)) evaluation_list ->
  exists ep,
    get_epoch_evaluation evaluation_list = Ok ep /\
    (forall f, is_percentage (epoch_rate f ep)) /\
    counts_ordered (fun f => epoch_sum f ep).
Proof.
  intros Hne Hrates Hcounts.
  destruct (get_epoch_evaluation_ok _ Hne) as (ep & Hep & Hr & Hc).
  exists ep. split; [exact Hep|]. split.
  - intros f. unfold is_percentage. rewrite Hr.
    apply mean_bounds.
    + destruct evaluation_list; [congruence | discriminate].
    + apply Forall_forall. intros q Hq.
      apply list_elem_of_In, in_map_iff in Hq as (ev & <- & Hev).
      rewrite Forall_forall in Hrates. apply Hrates, list_elem_of_In, Hev.
  - unfold counts_ordered. rewrite !Hc.
    repeat split; apply list_sum_le; (eapply Forall_impl; [exact Hcounts|]);
      intros ev H; apply H.
Qed.

Lemma epoch_bounds_from_sentences_witness :
  exists ep,
    get_epoch_evaluation [exact_evaluation; crossing_evaluation] = Ok ep /\
    (forall f, is_percentage (epoch_rate f ep)) /\
    counts_ordered (fun f => epoch_sum f ep).
Proof.
  apply (epoch_bounds_from_sentences [exact_evaluation; crossing_evaluation]).
  - discriminate.
  - repeat constructor; destruct f; vm_compute; discriminate.
  - repeat constructor; cbn; lia.
Defined.






Lemma of_int_add (a b : nat) : (of_int (a + b) == of_int a + of_int b)%Q.
Proof. unfold of_int. rewrite Nat2Z.inj_add, inject_Z_plus. reflexivity. Qed.






(** ** write_log *)

Lemma append_nil_l (s : string) : ("" ++ s)%string = s.
Proof. reflexivity. Qed.

Lemma append_cons (c : ascii) (a b : string) :
  (String c a ++ b)%string = String c (a ++ b)%string.
Proof. reflexivity. Qed.

Lemma uint_of_string_zeros (k : nat) (s : string) :
  NilEmpty.uint_of_string (zeros k ++ s)
  = option_map (Nat.iter k D0) (NilEmpty.uint_of_string s).
Proof.
  induction k as [|k IH]; cbn [zeros Nat.iter].
  - rewrite append_nil_l. destruct (NilEmpty.uint_of_string s); reflexivity.
  - rewrite append_cons. cbn [NilEmpty.uint_of_string]. rewrite IH.
    destruct (NilEmpty.uint_of_string s); reflexivity.
Qed.

Lemma of_uint_zeros (k : nat) (d : uint) :
  Nat.of_uint (Nat.iter k D0 d) = Nat.of_uint d.
Proof. induction k as [|k IH]; [reflexivity|]. cbn [Nat.iter]. exact IH. Qed.

(** The number that the digits of a file name denote. *)
Lemma format_04_decode (n : nat) :
  option_map Nat.of_uint (NilEmpty.uint_of_string (format_04 n)) = Some n.
Proof.
  unfold format_04, str_int. rewrite uint_of_string_zeros, NilEmpty.usu.
  cbn [option_map]. rewrite of_uint_zeros, Unsigned.of_to. reflexivity.
Qed.

Lemma append_cancel_l (p a b : string) : (p ++ a = p ++ b)%string -> a = b.
Proof.
  induction p as [|c p IH]; [rewrite !append_nil_l; auto|].
  rewrite !append_cons. intros [= H]. exact (IH H).
Qed.

Lemma length_zeros (k : nat) : String.length (zeros k) = k.
Proof. induction k as [|k IH]; cbn [zeros String.length]; [reflexivity | lia]. Qed.

Lemma length_append (a b : string) :
  String.length (a ++ b) = String.length a + String.length b.
Proof.
  induction a as [|c a IH]; [reflexivity|].
  rewrite append_cons. cbn [String.length]. lia.
Qed.



Lemma log_file_path_inj (log_path : string) (n n' : nat) :
  log_file_path log_path n = log_file_path log_path n' -> n = n'.
Proof.
  unfold log_file_path. intros H.
  apply append_cancel_l, append_cancel_l in H.
  pose proof (format_04_decode n) as Hn. rewrite H, format_04_decode in Hn.
  congruence.
Qed.

(** X17: the file name that [write_log] builds for an epoch has at least four
    characters after ['epoch-'], exactly four up to epoch 9999; the epoch
    number is read back from its digits, so that different epochs have
    different log files. *)
Theorem log_file_name_round_trip (log_path : string) (epoch_count : nat) :
  option_map Nat.of_uint (NilEmpty.uint_of_string (format_04 epoch_count))
  = Some epoch_count /\
  4 <= String.length (format_04 epoch_count) /\
  (epoch_count < 10 ^ 4 -> String.length (format_04 epoch_count) = 4) /\
  (forall epoch_count',
     log_file_path log_path epoch_count = log_file_path log_path epoch_count' ->
     epoch_count = epoch_count').
Proof.
  split; [apply format_04_decode|]. split; [|split].
  - unfold format_04. rewrite length_append, length_zeros. lia.
  - intros Hlt.
    assert (Hall : forallb (fun n => String.length (format_04 n) =? 4) (seq 0 (10 ^ 4))
                   = true) by (vm_compute; reflexivity).
    rewrite forallb_forall in Hall. apply Nat.eqb_eq, Hall, in_seq. lia.
  - intros n'. apply log_file_path_inj.
Qed.


(** ** The epoch loop of train *)

Lemma truediv_Ok (a b q : Q) :
  truediv a b = Ok q -> ~ (b == 0)%Q /\ q = (a / b)%Q.
Proof.
  unfold truediv. destruct (Qeq_bool b 0) eqn:E; [discriminate|].
  intros [= <-]. split; [|reflexivity].
  intros H. apply Qeq_bool_iff in H. congruence.
Qed.

Lemma of_int_zero_iff (n : nat) : (of_int n == 0)%Q <-> n = 0.
Proof.
  split.
  - intros H. destruct n; [reflexivity|].
    pose proof (of_int_pos (S n) ltac:(lia)). lra.
  - intros ->. reflexivity.
Qed.

Lemma train_epoch_inv (run : training_run) (st st' : train_state) (go_on : bool) :
  train_epoch run st = Ok (st', go_on) ->
  batch_losses run (epoch_count st) <> [] /\
  exists st1,
    epoch_effect run st st1 /\
    go_on = Qlt_bool (epoch_loss run (epoch_count st))
              (sum_Q (last_batch_loss st1) / of_int (length (last_batch_loss st1)))
            || (epoch_count st <? 20) /\
    st' = (if go_on then next_epoch st1 else st1).
Proof.
  destruct st as [k lf lu lbl mf mu sm wl]. unfold train_epoch. cbn [epoch_count].
  intros H. apply bind_Ok in H as (loss & Hloss & H).
  apply truediv_Ok in Hloss as [Hnz ->].
  assert (Hne : batch_losses run k <> []).
  { intros E. apply Hnz. rewrite E. reflexivity. }
  split; [exact Hne|].
  apply bind_Ok in H as (st1 & Hst1 & H).
  apply bind_Ok in H as (avg & Havg & H). apply truediv_Ok in Havg as [_ ->].
  exists st1.
  assert (Heff : epoch_effect run (TrainState k lf lu lbl mf mu sm wl) st1).
  { unfold epoch_effect. cbn [epoch_count last_batch_loss last_f1 last_uas
                              saved_models max_f1 max_uas written_logs].
    destruct (k mod 5 =? 0).
    - apply bind_Ok in Hst1 as (evs & Hevs & Hst1).
      apply bind_Ok in Hst1 as (ep & Hep & Hst1). injection Hst1 as <-.
      cbn. split; [reflexivity|]. split; [reflexivity|].
      exists evs, ep. repeat split; assumption.
    - injection Hst1 as <-. cbn. repeat split. }
  split; [exact Heff|].
  destruct Heff as (_ & Hlbl & _).
  cbn [last_batch_loss] in Hlbl. rewrite Hlbl. fold (epoch_loss run k) in H |- *.
  destruct (Qlt_bool _ _ || (k <? 20)); injection H as <- <-; auto.
Qed.

Lemma train_epoch_ok (run : training_run) (st : train_state) :
  epoch_runs run (epoch_count st) ->
  exists st' go_on, train_epoch run st = Ok (st', go_on).
Proof.
  destruct st as [k lf lu lbl mf mu sm wl]. cbn [epoch_count].
  intros [Hne Heval]. unfold train_epoch.
  rewrite truediv_ok
    by (rewrite of_int_zero_iff; destruct (batch_losses run k); [congruence | discriminate]).
  cbn [bind].
  assert (Havg : forall l : list Q, exists q,
             truediv (sum_Q (lbl ++ l)) (of_int (length (lbl ++ [
               (sum_Q (batch_losses run k) / of_int (length (batch_losses run k)))%Q])))
             = Ok q).
  { intros l. eexists. apply truediv_ok. rewrite of_int_zero_iff, length_app.
    cbn [length]. lia. }
  destruct (Nat.eqb_spec (k mod 5) 0) as [H5|H5].
  - destruct (Heval H5) as (evs & ep & -> & Hep). cbn [bind].
    rewrite Hep. cbn [bind].
    destruct (Havg [(sum_Q (batch_losses run k)
                     / of_int (length (batch_losses run k)))%Q]) as [q ->].
    cbn [bind]. destruct (_ || _); eauto.
  - cbn [bind].
    destruct (Havg [(sum_Q (batch_losses run k)
                     / of_int (length (batch_losses run k)))%Q]) as [q ->].
    cbn [bind]. destruct (_ || _); eauto.
Qed.

(** A property of the states at the head of the loop, and what it gives at
    [break]. *)
Lemma train_loop_final (run : training_run) (P Q : train_state -> Prop) :
  (forall st st', P st -> train_epoch run st = Ok (st', true) -> P st') ->
  (forall st st', P st -> train_epoch run st = Ok (st', false) -> Q st') ->
  forall fuel st st',
    P st -> train_loop run fuel st = Ok (Some st') -> Q st'.
Proof.
  intros Hgo Hstop. induction fuel as [|fuel IH]; intros st st' HP Hrun;
    cbn [train_loop] in Hrun; [discriminate|].
  apply bind_Ok in Hrun as ([st1 b] & Hstep & Hrun). destruct b.
  - eapply IH; [|exact Hrun]. eapply Hgo; eassumption.
  - injection Hrun as <-. eapply Hstop; eassumption.
Qed.

Lemma Qlt_bool_spec (a b : Q) : Qlt_bool a b = true <-> (a < b)%Q.
Proof.
  unfold Qlt_bool. rewrite Qlt_alt. destruct (a ?= b)%Q; split; congruence.
Qed.

Lemma Qlt_bool_false (a b : Q) : Qlt_bool a b = false <-> (b <= a)%Q.
Proof.
  destruct (Qlt_bool a b) eqn:E.
  - apply Qlt_bool_spec in E. split; [discriminate | lra].
  - split; [|reflexivity]. intros _.
    destruct (Qlt_le_dec a b) as [H|H]; [|exact H].
    apply Qlt_bool_spec in H. congruence.
Qed.

Lemma evaluated_epochs_S (n : nat) :
  evaluated_epochs (S n)
  = evaluated_epochs n ++ (if n mod 5 =? 0 then [n] else []).
Proof.
  unfold evaluated_epochs. rewrite seq_S, filter_app. f_equal. cbn [Nat.add].
  destruct (Nat.eqb_spec (n mod 5) 0) as [H|H].
  - rewrite filter_cons_True by exact H. reflexivity.
  - rewrite filter_cons_False by exact H. reflexivity.
Qed.

(** The loop's bookkeeping at the head of epoch [epoch_count st]. *)
Lemma train_bookkeeping_step (run : training_run) (st st1 : train_state) :
  epoch_effect run st st1 ->
  last_batch_loss st = map (epoch_loss run) (seq 0 (epoch_count st)) ->
  map (fun entry => fst (fst entry)) (written_logs st)
  = evaluated_epochs (epoch_count st) ->
  length (last_uas st) = length (written_logs st) ->
  length (last_f1 st) = length (written_logs st) ->
  last_batch_loss st1 = losses_upto run (epoch_count st) /\
  map (fun entry => fst (fst entry)) (written_logs st1)
  = evaluated_epochs (S (epoch_count st)) /\
  length (last_uas st1) = length (written_logs st1) /\
  length (last_f1 st1) = length (written_logs st1).
Proof.
  intros (Hk & Hlbl & Heff) Hl Hlogs Hu Hf.
  split.
  - rewrite Hlbl, Hl. unfold losses_upto. rewrite seq_S, map_app. reflexivity.
  - rewrite evaluated_epochs_S.
    destruct (epoch_count st mod 5 =? 0).
    + destruct Heff as (evs & ep & _ & _ & Hf1 & Hu1 & _ & _ & _ & Hw).
      rewrite Hw, Hf1, Hu1, map_app, !length_app, Hlogs. cbn [map length fst].
      repeat split; lia.
    + destruct Heff as (Hf1 & Hu1 & _ & _ & _ & Hw).
      rewrite Hw, Hf1, Hu1, app_nil_r. auto.
Qed.

(** X19: when [train]'s loop reaches [break], it has run at least 21 epochs
    (the last one has [epoch_count >= 20]); it has appended one batch loss
    for every epoch, has evaluated and logged exactly the epochs 0, 5, 10,
    ... up to the last one, and has one F1 and one UAS for each of them. *)
Theorem train_break_bookkeeping (run : training_run) (fuel : nat)
  (st : train_state) :
  train_loop run fuel initial_state = Ok (Some st) ->
  20 <= epoch_count st /\
  last_batch_loss st = losses_upto run (epoch_count st) /\
  map (fun entry => fst (fst entry)) (written_logs st)
  = evaluated_epochs (S (epoch_count st)) /\
  length (last_uas st) = length (written_logs st) /\
  length (last_f1 st) = length (written_logs st).
Proof.
  set (P := fun s : train_state =>
         last_batch_loss s = map (epoch_loss run) (seq 0 (epoch_count s)) /\
         map (fun entry => fst (fst entry)) (written_logs s)
         = evaluated_epochs (epoch_count s) /\
         length (last_uas s) = length (written_logs s) /\
         length (last_f1 s) = length (written_logs s)).
  intros Hrun. pattern st.
  eapply (train_loop_final run P); [| | |exact Hrun].
  - intros s s' (Hl & Hlogs & Hu & Hf) Hstep.
    apply train_epoch_inv in Hstep as (_ & s1 & Heff & _ & ->).
    destruct (train_bookkeeping_step run s s1 Heff Hl Hlogs Hu Hf)
      as (Hl1 & Hlogs1 & Hu1 & Hf1).
    destruct Heff as (Hk & _). unfold P, next_epoch.
    cbn [last_batch_loss epoch_count written_logs last_uas last_f1].
    rewrite Hk, Nat.add_1_r. auto.
  - intros s s' (Hl & Hlogs & Hu & Hf) Hstep.
    apply train_epoch_inv in Hstep as (_ & s1 & Heff & Hgo & ->).
    destruct (train_bookkeeping_step run s s1 Heff Hl Hlogs Hu Hf)
      as (Hl1 & Hlogs1 & Hu1 & Hf1).
    destruct Heff as (Hk & _). rewrite Hk. split; [|auto].
    symmetry in Hgo. apply orb_false_elim in Hgo as [_ Hlt].
    apply Nat.ltb_ge in Hlt. exact Hlt.
  - unfold P. cbn. auto.
Qed.

Lemma train_break_bookkeeping_witness :
  exists st,
    train_loop constant_run 21 initial_state = Ok (Some st) /\
    20 <= epoch_count st /\
    last_batch_loss st = losses_upto constant_run (epoch_count st) /\
    map (fun entry => fst (fst entry)) (written_logs st)
    = evaluated_epochs (S (epoch_count st)) /\
    length (last_uas st) = length (written_logs st) /\
    length (last_f1 st) = length (written_logs st).
Proof.
  eexists. split; [vm_compute; reflexivity|].
  apply (train_break_bookkeeping constant_run 21). vm_compute. reflexivity.
Defined.

Lemma py_max_ge (a b : Q) : (a <= py_max a b)%Q /\ (b <= py_max a b)%Q.
Proof.
  unfold py_max. destruct (Qlt_bool a b) eqn:E.
  - apply Qlt_bool_spec in E. lra.
  - apply Qlt_bool_false in E. lra.
Qed.

Lemma best_checkpoint_step (run : training_run) (st st1 : train_state) :
  epoch_effect run st st1 -> best_checkpoint st -> best_checkpoint st1.
Proof.
  intros (Hk & _ & Heff) (H0 & Hlogs & Hlast). unfold best_checkpoint.
  destruct (epoch_count st mod 5 =? 0).
  - destruct Heff as (evs & ep & _ & _ & _ & _ & Hs & _ & Hm & Hw).
    rewrite Hm, Hw. destruct (py_max_ge (uas_accuracy ep) (max_uas st)) as [G1 G2].
    split; [lra|]. split.
    + apply Forall_app. split.
      * eapply Forall_impl; [exact Hlogs|]. cbn beta. intros e He. lra.
      * constructor; [exact G1 | constructor].
    + rewrite Hs. unfold py_max in *. destruct (Qlt_bool (max_uas st) _) eqn:E.
      * rewrite last_snoc. exists (epoch_loss run (epoch_count st)), ep. split.
        -- apply elem_of_app. right. left.
        -- apply Qlt_bool_spec in E.
           destruct (Qlt_bool (uas_accuracy ep) (max_uas st)) eqn:E'; [|reflexivity].
           apply Qlt_bool_spec in E'. lra.
      * apply Qlt_bool_false in E.
        assert (Hsame : ((if Qlt_bool (uas_accuracy ep) (max_uas st)
                          then max_uas st else uas_accuracy ep) == max_uas st)%Q).
        { destruct (Qlt_bool (uas_accuracy ep) (max_uas st)) eqn:E'; [reflexivity|].
          apply Qlt_bool_false in E'. lra. }
        destruct (last (saved_models st)) as [k|].
        -- destruct Hlast as (loss & ep' & Hin & Heq). exists loss, ep'. split.
           ++ apply elem_of_app. left. exact Hin.
           ++ rewrite Heq, Hsame. reflexivity.
        -- rewrite Hsame. exact Hlast.
  - destruct Heff as (_ & _ & Hs & _ & Hm & Hw). rewrite Hs, Hm, Hw. auto.
Qed.

(** X20: at [break] the best UAS that [train] has recorded is not negative
    and is at least the UAS of every logged evaluation; the checkpoint saved
    last is that of a logged evaluation with this best UAS, and if no
    checkpoint was saved the best UAS is still 0. *)
Theorem train_keeps_best_checkpoint (run : training_run) (fuel : nat)
  (st : train_state) :
  train_loop run fuel initial_state = Ok (Some st) -> best_checkpoint st.
Proof.
  intros Hrun. pattern st.
  eapply (train_loop_final run best_checkpoint); [| | |exact Hrun].
  - intros s s' HP Hstep.
    apply train_epoch_inv in Hstep as (_ & s1 & Heff & _ & ->).
    exact (best_checkpoint_step run s s1 Heff HP).
  - intros s s' HP Hstep.
    apply train_epoch_inv in Hstep as (_ & s1 & Heff & _ & ->).
    exact (best_checkpoint_step run s s1 Heff HP).
  - unfold best_checkpoint. cbn. split; [lra|]. split; [constructor | reflexivity].
Qed.

Lemma train_keeps_best_checkpoint_witness :
  exists st,
    train_loop constant_run 21 initial_state = Ok (Some st) /\ best_checkpoint st.
Proof.
  eexists. split; [vm_compute; reflexivity|].
  apply (train_keeps_best_checkpoint constant_run 21). vm_compute. reflexivity.
Defined.

(** While every epoch runs and the loop goes on, [n] turns lead to the head
    of epoch [n]. *)
Lemma train_loop_prefix (run : training_run) (n : nat) :
  (forall j, j < n -> epoch_runs run j /\ keeps_going run j = true) ->
  exists st,
    epoch_count st = n /\
    last_batch_loss st = map (epoch_loss run) (seq 0 n) /\
    forall fuel,
      train_loop run (n + fuel) initial_state = train_loop run fuel st.
Proof.
  induction n as [|n IH]; intros Hall.
  - exists initial_state. repeat split.
  - destruct IH as (st & Hk & Hl & Hloop); [intros j Hj; apply Hall; lia|].
    destruct (Hall n ltac:(lia)) as [Hruns Hgo].
    rewrite <- Hk in Hruns.
    destruct (train_epoch_ok run st Hruns) as (st' & go & Hstep).
    pose proof (train_epoch_inv run st st' go Hstep) as (_ & st1 & Heff & Hgo' & Hst').
    assert (Hl1 : last_batch_loss st1 = losses_upto run n).
    { destruct Heff as (_ & Hlbl & _). rewrite Hlbl, Hl, Hk.
      unfold losses_upto. rewrite seq_S, map_app. reflexivity. }
    rewrite Hl1, Hk in Hgo'. fold (running_average run n) in Hgo'.
    fold (keeps_going run n) in Hgo'. rewrite Hgo in Hgo'. subst go st'.
    exists (next_epoch st1). destruct Heff as (Hk1 & _).
    unfold next_epoch at 1 2. cbn [epoch_count last_batch_loss].
    split; [rewrite Hk1, Hk; lia|]. split; [exact Hl1|].
    intros fuel.
    replace (S n + fuel) with (n + S fuel) by lia.
    rewrite (Hloop (S fuel)). cbn [train_loop]. rewrite Hstep. reflexivity.
Qed.









Lemma for_each_first_raise {A S : Type} (body : A -> S -> result S) (e : exn)
  (pre post : list A) (x : A) :
  (forall y s, y ∈ pre -> exists s', body y s = Ok s') ->
  (forall s, body x s = Raise e) ->
  forall s, for_each (pre ++ x :: post) body s = Raise e.
Proof.
  intros Hpre Hx s. rewrite for_each_app.
  destruct (for_each_total body pre Hpre s) as [s' ->].
  cbn [bind for_each]. rewrite Hx. reflexivity.
Qed.

Lemma enumerate_from_app {A : Type} (l1 l2 : list A) (k : nat) :
  enumerate_from k (l1 ++ l2)
  = enumerate_from k l1 ++ enumerate_from (k + length l1) l2.
Proof.
  revert k. induction l1 as [|x l1 IH]; intros k; cbn [app enumerate_from length].
  - rewrite Nat.add_0_r. reflexivity.
  - rewrite IH. do 2 f_equal. f_equal. lia.
Qed.

(** A sentence that cannot be scored fails the evaluation pass with its
    exception, when the sentences before it are scored. *)
Lemma evaluate_epoch_raises (run : training_run) (k i : nat)
  (data_label : list word_info) (e : exn) :
  eval_data_labels run !! i = Some data_label ->
  parse_get_parser_evaluation run (predicted_results run k i) data_label = Raise e ->
  (forall j g, j < i -> eval_data_labels run !! j = Some g ->
     exists ev,
       parse_get_parser_evaluation run (predicted_results run k j) g = Ok ev) ->
  evaluate_epoch run k = Raise e.
Proof.
  intros Hi Hraise Hbefore. unfold evaluate_epoch, enumerate.
  pose proof (take_drop_middle _ _ _ Hi) as Hsplit.
  rewrite <- Hsplit at 1. rewrite enumerate_from_app. cbn [enumerate_from Nat.add].
  apply for_each_first_raise.
  - intros [j g] s Hj. apply elem_of_enumerate_from in Hj as [_ Hj].
    rewrite Nat.sub_0_r in Hj. pose proof (lookup_lt_Some _ _ _ Hj) as Hlt.
    rewrite length_take in Hlt. rewrite lookup_take_lt in Hj by lia.
    destruct (Hbefore j g ltac:(lia) Hj) as [ev ->]. cbn [bind]. eauto.
  - intros s. rewrite length_take.
    rewrite Nat.min_l by (apply Nat.lt_le_incl; eapply lookup_lt_Some; exact Hi).
    rewrite Hraise. reflexivity.
Qed.

(** X23: what makes [train] fail at an epoch [k] that it reaches.  With no
    batch in the epoch the batch loss is [0 / 0] and [train] raises
    [ZeroDivisionError]; at an evaluated epoch ([k % 5 == 0]) an exception
    of the evaluation pass or of [get_epoch_evaluation] is the exception of
    [train], and the first sentence that [get_parser_evaluation] cannot
    score makes the pass raise.  With the [get_epoch_evaluation] of
    lstm_parser/evaluate.py an evaluation set without sentences makes
    [train] raise [ZeroDivisionError]. *)
Theorem train_fails_with_its_epoch (run : training_run) (k : nat) :
  (forall j, j < k -> epoch_runs run j /\ keeps_going run j = true) ->
  (batch_losses run k = [] ->
   forall fuel, train_loop run (k + S fuel) initial_state = Raise ZeroDivisionError) /\
  (batch_losses run k <> [] -> k mod 5 = 0 ->
   (forall e, evaluate_epoch run k = Raise e ->
      forall fuel, train_loop run (k + S fuel) initial_state = Raise e) /\
   (forall evaluation_list e,
      evaluate_epoch run k = Ok evaluation_list ->
      parse_get_epoch_evaluation run evaluation_list = Raise e ->
      forall fuel, train_loop run (k + S fuel) initial_state = Raise e) /\
   (eval_data_labels run = [] ->
      parse_get_epoch_evaluation run = get_epoch_evaluation ->
      forall fuel, train_loop run (k + S fuel) initial_state
                   = Raise ZeroDivisionError)) /\
  (forall i data_label e,
     eval_data_labels run !! i = Some data_label ->
     parse_get_parser_evaluation run (predicted_results run k i) data_label
     = Raise e ->
     (forall j g, j < i -> eval_data_labels run !! j = Some g ->
        exists ev,
          parse_get_parser_evaluation run (predicted_results run k j) g = Ok ev) ->
     evaluate_epoch run k = Raise e).
Proof.
  intros Hprefix.
  destruct (train_loop_prefix run k Hprefix) as (st & Hk & _ & Hloop).
  split; [|split].
  - intros Hnone fuel. rewrite Hloop. cbn [train_loop].
    destruct st as [k' lf lu lbl mf mu sm wl]. cbn [epoch_count] in Hk. subst k'.
    unfold train_epoch. rewrite Hnone. reflexivity.
  - intros Hsome H5.
    assert (Hdiv : truediv (sum_Q (batch_losses run k))
                     (of_int (length (batch_losses run k)))
                   = Ok (epoch_loss run k)).
    { apply truediv_ok. rewrite of_int_zero_iff.
      destruct (batch_losses run k); [congruence | discriminate]. }
    split; [|split].
    + intros e Heval fuel. rewrite Hloop. cbn [train_loop].
      destruct st as [k' lf lu lbl mf mu sm wl]. cbn [epoch_count] in Hk. subst k'.
      unfold train_epoch. rewrite Hdiv. cbn [bind].
      rewrite (proj2 (Nat.eqb_eq _ _) H5), Heval. reflexivity.
    + intros evs e Heval Hep fuel. rewrite Hloop. cbn [train_loop].
      destruct st as [k' lf lu lbl mf mu sm wl]. cbn [epoch_count] in Hk. subst k'.
      unfold train_epoch. rewrite Hdiv. cbn [bind].
      rewrite (proj2 (Nat.eqb_eq _ _) H5), Heval. cbn [bind].
      rewrite Hep. reflexivity.
    + intros Hempty Hfun fuel. rewrite Hloop. cbn [train_loop].
      destruct st as [k' lf lu lbl mf mu sm wl]. cbn [epoch_count] in Hk. subst k'.
      unfold train_epoch. rewrite Hdiv. cbn [bind].
      rewrite (proj2 (Nat.eqb_eq _ _) H5). unfold evaluate_epoch.
      rewrite Hempty, Hfun. reflexivity.
  - intros i g e. apply evaluate_epoch_raises.
Qed.

Lemma train_fails_with_its_epoch_witness :
  evaluate_epoch silent_run 0 = Raise ZeroDivisionError /\
  train_loop silent_run (0 + 1) initial_state = Raise ZeroDivisionError.
Proof.
  destruct (train_fails_with_its_epoch silent_run 0) as (_ & Hpass & Hsentence).
  - intros j Hj. lia.
  - assert (Heval : evaluate_epoch silent_run 0 = Raise ZeroDivisionError).
    { apply (Hsentence 0 [WordInfo "ab" "N" 0 "root"]).
      - reflexivity.
      - vm_compute. reflexivity.
      - intros j g Hj. lia. }
    split; [exact Heval|].
    destruct Hpass as [Hraise _]; [discriminate | reflexivity |].
    apply Hraise. exact Heval.
Defined.

(** ** train over the functions of lstm_parser/evaluate.py *)

Lemma well_formed_sound_sentence (predicted_list gold_list : list word_info) :
  well_formed predicted_list gold_list = true ->
  predicted_list <> [] -> gold_list <> [] ->
  exists ev,
    get_parser_evaluation predicted_list gold_list = Ok ev /\ sound_sentence ev.
Proof.
  intros Hwf Hp Hg.
  destruct (get_parser_evaluation_well_formed _ _ Hwf Hp Hg)
    as (m & c & ev & Hmap & Hal & Hev & Hof).
  destruct (well_formed_spans _ _ Hwf) as (_ & Hpne & Hgne & _).
  pose proof (nonempty_length _ Hp) as Hn. pose proof (nonempty_length _ Hg) as Hng.
  pose proof (alignment_count_le_predicted _ _ m c Hpne Hgne Hal) as Hcp.
  pose proof (alignment_count_le_gold _ _ m c Hpne Hgne Hal) as Hcg.
  pose proof (alignment_aligned_le_count _ _ m c Hpne Hal) as Hac.
  pose proof (count_le_aligned m _ (enumerate predicted_list)
                (pos_correct_aligned gold_list m)) as Hpos.
  pose proof (count_le_aligned m _ (enumerate predicted_list)
                (unlabeled_correct_aligned gold_list m)) as Huas.
  pose proof (labeled_le_unlabeled gold_list m (enumerate predicted_list)) as Hlas.
  destruct Hof as (E1 & E2 & E3 & E4 & E5 & E6 & Ep & Er & Ef & Epa & Eus & Eup & Eur
                   & Euf & Els & Elp & Elr & Elf).
  exists ev. split; [exact Hev|]. split.
  - assert (Bp : is_percentage (precision ev))
      by (rewrite Ep; apply percent_bounds; lia).
    assert (Br : is_percentage (recall ev))
      by (rewrite Er; apply percent_bounds; lia).
    assert (Bup : is_percentage (uas_precision ev))
      by (rewrite Eup; apply percent_bounds; lia).
    assert (Bur : is_percentage (uas_recall ev))
      by (rewrite Eur; apply percent_bounds; lia).
    assert (Blp : is_percentage (las_precision ev))
      by (rewrite Elp; apply percent_bounds; lia).
    assert (Blr : is_percentage (las_recall ev))
      by (rewrite Elr; apply percent_bounds; lia).
    intros f. destruct f; cbn [sentence_rate].
    + exact Bp.
    + exact Br.
    + eapply f1_score_bounds; [exact Bp | exact Br | exact Ef].
    + rewrite Epa. apply guarded_bounds. lia.
    + rewrite Eus. apply guarded_bounds. lia.
    + rewrite Els. apply guarded_bounds. lia.
    + eapply f1_score_bounds; [exact Bup | exact Bur | exact Euf].
    + eapply f1_score_bounds; [exact Blp | exact Blr | exact Elf].
  - unfold counts_ordered. cbn [sentence_count].
    rewrite E1, E2, E3, E4, E5, E6. lia.
Qed.

Lemma sound_epoch_of_sentences (evaluation_list : list evaluation) :
  evaluation_list <> [] ->
  Forall sound_sentence evaluation_list ->
  exists ep, get_epoch_evaluation evaluation_list = Ok ep /\ sound_epoch ep.
Proof.
  intros Hne Hall.
  destruct (get_epoch_evaluation_ok _ Hne) as (ep & Hep & Hr & Hc).
  exists ep. split; [exact Hep|]. split.
  - intros f. unfold is_percentage. rewrite Hr.
    apply mean_bounds.
    + destruct evaluation_list; [congruence | discriminate].
    + apply Forall_forall. intros q Hq.
      apply list_elem_of_In, in_map_iff in Hq as (ev & <- & Hev).
      rewrite Forall_forall in Hall. apply (Hall ev), list_elem_of_In, Hev.
  - unfold counts_ordered. rewrite !Hc.
    repeat split; apply list_sum_le; (eapply Forall_impl; [exact Hall|]);
      intros ev [_ H]; apply H.
Qed.

(** The evaluation pass returns one record for each sentence when every
    sentence is scored. *)
Lemma evaluate_loop_ok (run : training_run) (k : nat) (good : evaluation -> Prop)
  (labels : list (list word_info)) :
  forall (b : nat) (acc : list evaluation),
    (forall i g, labels !! i = Some g ->
       exists ev,
         parse_get_parser_evaluation run (predicted_results run k (b + i)) g = Ok ev /\
         good ev) ->
    exists evs,
      for_each (enumerate_from b labels)
        (fun '(sentence, data_label) evaluation_list =>
           let* evaluation :=
             parse_get_parser_evaluation run
               (predicted_results run k sentence) data_label in
           Ok (evaluation_list ++ [evaluation]))
        acc
      = Ok (acc ++ evs) /\
      length evs = length labels /\ Forall good evs.
Proof.
  induction labels as [|g labels IH]; intros b acc H.
  - exists []. rewrite app_nil_r. repeat split. constructor.
  - cbn [enumerate_from for_each].
    destruct (H 0 g eq_refl) as (ev & Hev & Hgood).
    rewrite Nat.add_0_r in Hev. rewrite Hev. cbn [bind].
    destruct (IH (S b) (acc ++ [ev])) as (evs & Hrun & Hlen & Hall).
    { intros i g' Hi. replace (S b + i) with (b + S i) by lia. apply H. exact Hi. }
    exists (ev :: evs). rewrite Hrun, <- app_assoc. cbn [app length].
    repeat split; [lia | constructor; assumption].
Qed.

Lemma evaluate_epoch_ok (run : training_run) (k : nat) (good : evaluation -> Prop) :
  (forall i g, eval_data_labels run !! i = Some g ->
     exists ev,
       parse_get_parser_evaluation run (predicted_results run k i) g = Ok ev /\
       good ev) ->
  exists evs,
    evaluate_epoch run k = Ok evs /\
    length evs = length (eval_data_labels run) /\ Forall good evs.
Proof.
  intros H.
  destruct (evaluate_loop_ok run k good (eval_data_labels run) 0 [] H)
    as (evs & Hrun & Hrest).
  exists evs. split; [exact Hrun | exact Hrest].
Qed.

Lemma scored_epoch (run : training_run) (k : nat) :
  scores_with_evaluate run ->
  eval_data_labels run <> [] ->
  (forall i g, eval_data_labels run !! i = Some g ->
     g <> [] /\ predicted_results run k i <> [] /\
     well_formed (predicted_results run k i) g = true) ->
  exists evs ep,
    evaluate_epoch run k = Ok evs /\
    parse_get_epoch_evaluation run evs = Ok ep /\ sound_epoch ep.
Proof.
  intros [Hsentence Hepoch] Hne Hdata.
  destruct (evaluate_epoch_ok run k sound_sentence) as (evs & Hevs & Hlen & Hall).
  { intros i g Hi. destruct (Hdata i g Hi) as (Hg & Hp & Hwf).
    rewrite Hsentence. apply well_formed_sound_sentence; assumption. }
  destruct (sound_epoch_of_sentences evs) as (ep & Hep & Hsound).
  { intros ->. destruct (eval_data_labels run); [congruence | discriminate]. }
  { exact Hall. }
  exists evs, ep. rewrite Hepoch. auto.
Qed.

Lemma py_max_percentage (a b : Q) :
  is_percentage a -> is_percentage b -> is_percentage (py_max a b).
Proof.
  unfold py_max. destruct (Qlt_bool a b); auto.
Qed.

Lemma train_loop_total (run : training_run) :
  (forall k, epoch_runs run k) ->
  forall fuel st, exists outcome, train_loop run fuel st = Ok outcome.
Proof.
  intros Hruns. induction fuel as [|fuel IH]; intros st; cbn [train_loop]; [eauto|].
  destruct (train_epoch_ok run st (Hruns _)) as (st' & go_on & ->). cbn [bind].
  destruct go_on; eauto.
Qed.

Lemma sound_logs_step (run : training_run) (st st1 : train_state) :
  (forall evs ep,
     evaluate_epoch run (epoch_count st) = Ok evs ->
     parse_get_epoch_evaluation run evs = Ok ep -> sound_epoch ep) ->
  epoch_effect run st st1 -> sound_logs st -> sound_logs st1.
Proof.
  intros Hsound (_ & _ & Heff) (Hlogs & Hf & Hu). unfold sound_logs.
  destruct (epoch_count st mod 5 =? 0).
  - destruct Heff as (evs & ep & Hevs & Hep & _ & _ & _ & Hmf & Hmu & Hw).
    pose proof (Hsound evs ep Hevs Hep) as Hs.
    rewrite Hw, Hmf, Hmu. split; [|split].
    + apply Forall_app. split; [exact Hlogs|]. constructor; [exact Hs | constructor].
    + apply py_max_percentage; [|exact Hf]. apply (proj1 Hs WordF1Score).
    + apply py_max_percentage; [|exact Hu]. apply (proj1 Hs UasAccuracy).
  - destruct Heff as (_ & _ & _ & Hmf & Hmu & Hw). rewrite Hw, Hmf, Hmu. auto.
Qed.

(** X24: [train] over the evaluation functions of lstm_parser/evaluate.py.
    When every epoch has a training batch, the evaluation set has a
    sentence, and at every epoch the tokens predicted for every evaluation
    sentence are well formed against its gold tokens, both lists not empty,
    no epoch raises: the loop either reaches [break] or is still running,
    and at [break] every logged epoch record has its rates in [[0, 100]] and
    its counts ordered, and the best F1 and the best UAS are in
    [[0, 100]]. *)
Theorem train_on_well_formed_data (run : training_run) :
  scores_with_evaluate run ->
  (forall k, batch_losses run k <> []) ->
  eval_data_labels run <> [] ->
  (forall k i g, eval_data_labels run !! i = Some g ->
     g <> [] /\ predicted_results run k i <> [] /\
     well_formed (predicted_results run k i) g = true) ->
  (forall k, epoch_runs run k) /\
  forall fuel,
    exists outcome,
      train_loop run fuel initial_state = Ok outcome /\
      forall st, outcome = Some st -> sound_logs st.
Proof.
  intros Hfun Hbatch Hne Hdata.
  assert (Hruns : forall k, epoch_runs run k).
  { intros k. split; [apply Hbatch|]. intros _.
    destruct (scored_epoch run k Hfun Hne (Hdata k)) as (evs & ep & Hevs & Hep & _).
    eauto. }
  split; [exact Hruns|]. intros fuel.
  destruct (train_loop_total run Hruns fuel initial_state) as [outcome Hrun].
  exists outcome. split; [exact Hrun|]. intros st ->.
  assert (Hstep : forall s s' b,
             sound_logs s -> train_epoch run s = Ok (s', b) -> sound_logs s').
  { intros s s' b HP Hs.
    apply train_epoch_inv in Hs as (_ & s1 & Heff & _ & ->).
    assert (H1 : sound_logs s1).
    { apply (sound_logs_step run s s1); [|exact Heff | exact HP].
      intros evs ep Hevs Hep.
      destruct (scored_epoch run (epoch_count s) Hfun Hne (Hdata _))
        as (evs' & ep' & Hevs' & Hep' & Hsound).
      congruence. }
    destruct b; [|exact H1].
    destruct H1 as (A & B & C). unfold sound_logs, next_epoch.
    cbn [written_logs max_f1 max_uas]. auto. }
  pattern st. eapply (train_loop_final run sound_logs); [| | |exact Hrun].
  - intros s s'. apply Hstep.
  - intros s s'. apply Hstep.
  - unfold sound_logs, is_percentage. cbn. split; [constructor|]. split; lra.
Qed.

Lemma train_on_well_formed_data_witness :
  (forall k, epoch_runs constant_run k) /\
  forall fuel,
    exists outcome,
      train_loop constant_run fuel initial_state = Ok outcome /\
      forall st, outcome = Some st -> sound_logs st.
Proof.
  apply (train_on_well_formed_data constant_run).
  - split; reflexivity.
  - intros k. discriminate.
  - discriminate.
  - intros k i g Hi. destruct i as [|i]; [|discriminate].
    injection Hi as <-. split; [discriminate|]. split; [discriminate|].
    vm_compute. reflexivity.
Defined.
